(** * Personal web page: translation resolver, markup normalizer,
      bundle loader and content refresher of [script.js]

    A shallow embedding of [script.js] and the properties its
    specification states about it.

    Modelling conventions.
    - A JavaScript string is a [string]; its characters stand for code
      units below 256.
    - A language bundle is the object produced by [response.json()]: a
      finite map from mode name to a finite map from key to text
      (section 3 of the specification).
    - The three globals [currentLang], [currentMode] and
      [currentTranslations] form the record [Session]; the functions that
      assign them take and return the state explicitly.
    - [fetch] is an oracle indexed by the number of fetches issued so far,
      so that every sequence of network outcomes is covered; the world
      keeps the log of requested languages.
    - The document is a record of the slots that [updateContent] writes. *)

From Stdlib Require Import String Ascii List Bool Arith Lia.
From stdpp Require Import base option gmap strings list fin_maps.
From Equations Require Import Equations.
Import ListNotations.

Local Open Scope string_scope.

(** ** Values, objects and the session state *)

(** [currentMode] only ever holds ['summary'] or ['full'] (line 3, line 174). *)
Inductive Mode : Type := Summary | Full.

Definition modeName (m : Mode) : string :=
  match m with Summary => "summary" | Full => "full" end.

Definition isFull (m : Mode) : bool :=
  match m with Full => true | Summary => false end.

#[global] Instance Mode_eq_dec : EqDecision Mode.
Proof. solve_decision. Defined.

(** What a property read [o[key]] can produce on an object of translated
    texts: nothing, a text, or a member that every object created by
    [JSON.parse] inherits from [Object.prototype]. *)
Inductive JsVal : Type :=
| VUndefined
| VString (s : string)
| VBuiltin (name : string).

#[global] Instance JsVal_eq_dec : EqDecision JsVal.
Proof. solve_decision. Defined.

(** The members of [Object.prototype] in a browser. All of them are
    functions, except [__proto__], whose getter answers the prototype
    object itself: every one is truthy and none is a string. *)
Definition objectPrototype : list string :=
  [ "constructor"; "hasOwnProperty"; "isPrototypeOf"; "propertyIsEnumerable";
    "toLocaleString"; "toString"; "valueOf"; "__proto__";
    "__defineGetter__"; "__defineSetter__"; "__lookupGetter__";
    "__lookupSetter__" ].

Definition inherited (key : string) : bool :=
  existsb (String.eqb key) objectPrototype.

(** JavaScript truthiness: [undefined] and the empty string are falsy. *)
Definition truthy (v : JsVal) : bool :=
  match v with
  | VUndefined => false
  | VString s => negb (String.eqb s "")
  | VBuiltin _ => true
  end.

Definition isString (v : JsVal) : bool :=
  match v with VString _ => true | _ => false end.

(** [o[key]]: own properties first, then the prototype. *)
Definition getProp (o : gmap string string) (key : string) : JsVal :=
  match o !! key with
  | Some s => VString s
  | None => if inherited key then VBuiltin key else VUndefined
  end.

(** [o?.[key]]: [undefined] when [o] is itself [undefined]. *)
Definition optGetProp (o : option (gmap string string)) (key : string) : JsVal :=
  match o with
  | Some m => getProp m key
  | None => VUndefined
  end.

(** [a || b] *)
Definition jsOr (a b : JsVal) : JsVal := if truthy a then a else b.

Record Session : Type := mkSession {
  currentLang : string;
  currentMode : Mode;
  currentTranslations : gmap string (gmap string string)
}.

(** The initial values of the three globals (lines 2 to 4). *)
Definition initialSession : Session :=
  {| currentLang := "en"; currentMode := Summary; currentTranslations := ∅ |}.

(** ** Translation resolver (lines 15 to 35) *)

Definition missingKey (key : string) : string :=
  "!!MISSING_KEY:" ++ key ++ "!!".

Definition t (s : Session) (key : string) : JsVal :=
  let activeModeContent := currentTranslations s !! modeName (currentMode s) in
  let summaryContent := currentTranslations s !! "summary" in
  let text := optGetProp activeModeContent key in
  let text :=
    if negb (truthy text) && isFull (currentMode s)
    then optGetProp summaryContent key
    else text in
  jsOr text (VString (missingKey key)).

(** ** Markup normalizer (lines 38 to 48)

    [text.replace(/\*\*(.*?)\*\*/g, '<strong>$1</strong>')] on the list of
    characters of [text]. *)

Definition star : ascii := "*"%char.

(** [.] matches every character except a line terminator; below 256
    these are the line feed and the carriage return. *)
Definition isLineTerminator (c : ascii) : bool :=
  Ascii.eqb c "010"%char || Ascii.eqb c "013"%char.

(** The text starts with the delimiter [**]. *)
Definition startsDelim (s : list ascii) : bool :=
  match s with
  | a :: b :: _ => Ascii.eqb a star && Ascii.eqb b star
  | _ => false
  end.

(** [(.*?)\*\*] at the front of [s]: the lazy star first tries to close
    the span and only then consumes one more character, so the capture is
    the shortest one; it fails at a line terminator or at the end of the
    text. The result is the captured group. *)
Fixpoint lazyBody (s : list ascii) : option (list ascii) :=
  if startsDelim s then Some []
  else match s with
       | [] => None
       | c :: s' =>
           if isLineTerminator c then None else cons c <$> lazyBody s'
       end.

(** The whole pattern tried at the front of [s]. *)
Definition matchAt (s : list ascii) : option (list ascii) :=
  if startsDelim s then lazyBody (drop 2 s) else None.

Definition strongOpen : list ascii := list_ascii_of_string "<strong>".
Definition strongClose : list ascii := list_ascii_of_string "</strong>".

(** The global replacement, scanning left to right. [skip] is the number
    of characters still covered by the match that was just replaced (the
    distance to the regular expression's [lastIndex]); where the pattern
    does not match, the character is copied. A match consumes the two
    delimiters and the capture: [length x + 4] characters. *)
Fixpoint replaceBold (skip : nat) (s : list ascii) : list ascii :=
  match s with
  | [] => []
  | c :: s' =>
      match skip with
      | S k => replaceBold k s'
      | O =>
          match matchAt (c :: s') with
          | Some x =>
              strongOpen ++ x ++ strongClose ++ replaceBold (length x + 3) s'
          | None => c :: replaceBold 0 s'
          end
      end
  end.

Definition processMarkdown (text : string) : string :=
  if String.eqb text "" then ""
  else string_of_list_ascii (replaceBold 0 (list_ascii_of_string text)).

(** [processMarkdown] as [updateContent] calls it, on whatever [t]
    answered: a falsy value gives [''], a string is normalized, and a
    truthy value that is no string has no [replace] method, so the call
    throws a [TypeError] ([None]). *)
Definition processMarkdownOf (text : JsVal) : option string :=
  match text with
  | VUndefined => Some ""
  | VString s => Some (processMarkdown s)
  | VBuiltin _ => None
  end.

(** *** The normalizer of the specification *)

(** No delimiter starts inside [s]. *)
Fixpoint delimFree (s : list ascii) : bool :=
  match s with
  | [] => true
  | c :: s' => negb (startsDelim (c :: s')) && delimFree s'
  end.

(** No delimiter starts inside [x], also when an asterisk follows it: a
    delimiter placed after [x] is the first one. *)
Definition closesFirst (x : list ascii) : bool := delimFree (x ++ [star]).

(** [x] holds no line terminator. *)
Definition oneLine (x : list ascii) : bool :=
  forallb (λ c, negb (isLineTerminator c)) x.

(** The normalizer as the specification words it, on one line: the text
    [s] reads [**x**] followed by [rest], where the closing delimiter is
    the first one after the opening delimiter (non-greedy) and [x] stays
    on one line. *)
Inductive spanAt : list ascii → list ascii → list ascii → Prop :=
| span_intro x rest :
    closesFirst x = true →
    oneLine x = true →
    spanAt (star :: star :: x ++ star :: star :: rest) x rest.

(** One pass from left to right: a span becomes [<strong>x</strong>] and
    the pass goes on after its closing delimiter, so that spans do not
    nest and what was produced is not read again; a character at which no
    span starts is copied. *)
Inductive normalizes : list ascii → list ascii → Prop :=
| normalizes_nil : normalizes [] []
| normalizes_span s x rest out :
    spanAt s x rest →
    normalizes rest out →
    normalizes s (strongOpen ++ x ++ strongClose ++ out)
| normalizes_char c s out :
    (∀ x rest, ¬ spanAt (c :: s) x rest) →
    normalizes s out →
    normalizes (c :: s) (c :: out).

(** The pattern matches at no position of [s]. *)
Fixpoint matchFree (s : list ascii) : Prop :=
  match s with
  | [] => True
  | c :: s' => matchAt (c :: s') = None ∧ matchFree s'
  end.

Definition noDelim (s : string) : bool := closesFirst (list_ascii_of_string s).

Definition lineFree (s : string) : bool := oneLine (list_ascii_of_string s).


(** A text made of bold spans, each preceded by ordinary text, and of a
    tail; and the markup it stands for. *)
Fixpoint boldSource (spans : list (string * string)) (tail : string) : string :=
  match spans with
  | [] => tail
  | (pre, x) :: spans' => pre ++ "**" ++ x ++ "**" ++ boldSource spans' tail
  end.

Fixpoint boldMarkup (spans : list (string * string)) (tail : string) : string :=
  match spans with
  | [] => tail
  | (pre, x) :: spans' =>
      pre ++ "<strong>" ++ x ++ "</strong>" ++ boldMarkup spans' tail
  end.

Definition wellDelimited (spans : list (string * string)) (tail : string) : Prop :=
  Forall (λ sp : string * string,
            noDelim sp.1 = true ∧ noDelim sp.2 = true ∧ lineFree sp.2 = true)
         spans
  ∧ delimFree (list_ascii_of_string tail) = true.

(** ** The world: session, document and network *)

(** The outcome of [fetch] followed by [response.json()]: the promise of
    [fetch] rejects, or a response arrives with its [ok] flag and a body
    that parses as a bundle or does not parse. *)
Inductive FetchOutcome : Type :=
| NetworkError
| Response (ok : bool) (json : option (gmap string (gmap string string))).

(** An ordered set of class names ([classList]). *)
Definition classAdd (c : string) (l : list string) : list string :=
  if bool_decide (c ∈ l) then l else l ++ [c].

Definition classRemove (c : string) (l : list string) : list string :=
  filter (λ x, x ≠ c) l.

(** The slots of the document that [updateContent] writes: the elements
    carrying [data-key] in document order (key and [innerHTML]), the
    [lang] attribute of the root, the text of [#current-lang-display] and
    of [#mode-toggle], the class lists of [#full-mode-experience] and of
    [#mode-toggle], and the text of the four navigation links. The slots
    are taken to be distinct elements, all present in the document. *)
Record Dom : Type := mkDom {
  keyed : list (string * string);
  htmlLang : string;
  langDisplay : string;
  modeToggleText : string;
  fullModeClasses : list string;
  modeToggleClasses : list string;
  navAbout : string;
  navExperience : string;
  navTechnologies : string;
  navEducation : string
}.

(** No element of the document asks for a key that names a member of
    [Object.prototype]. *)
Definition plainKeys (d : Dom) : Prop :=
  Forall (λ el : string * string, inherited el.1 = false) (keyed d).

Record World : Type := mkWorld {
  session : Session;
  document : Dom;
  fetchLog : list string
}.

(** How an async function ends: its promise is fulfilled, or rejected by
    an uncaught exception. *)
Inductive Completion : Type := Returned | Threw.

(** [Object.keys(currentTranslations).length] *)
Definition keyCount (w : World) : nat := size (currentTranslations (session w)).

(** [Object.keys(currentTranslations).length > 0] *)
Definition bundleLoaded (w : World) : bool := bool_decide (0 < keyCount w)%nat.

Definition withSession (w : World) (s : Session) : World :=
  {| session := s; document := document w; fetchLog := fetchLog w |}.

Definition withDocument (w : World) (d : Dom) : World :=
  {| session := session w; document := d; fetchLog := fetchLog w |}.

Definition bundleUrl (lang : string) : string := "./i18n/" ++ lang ++ ".json".

(** The number of further calls [loadLanguage lang] can make to itself. *)
Definition hops (lang : string) : nat := if decide (lang = "en") then 0 else 1.

(** The visibility state that depends on the mode. *)
Definition hasClass (c : string) (l : list string) : bool := bool_decide (c ∈ l).

Definition visibility (d : Dom) : bool * bool * bool :=
  (hasClass "hidden" (fullModeClasses d),
   hasClass "bg-gray-700" (modeToggleClasses d),
   hasClass "bg-dark-card" (modeToggleClasses d)).

Definition visibilityFor (m : Mode) : bool * bool * bool :=
  (negb (isFull m), isFull m, negb (isFull m)).

(** [currentMode === 'summary' ? 'full' : 'summary'] *)
Definition flipMode (m : Mode) : Mode :=
  match m with Summary => Full | Full => Summary end.

(** [navigator.language.split('-')[0]]: the text before the first dash. *)
Fixpoint beforeDash (s : string) : string :=
  match s with
  | EmptyString => EmptyString
  | String c s' => if Ascii.eqb c "-"%char then EmptyString else String c (beforeDash s')
  end.

(** [a || b] on strings. *)
Definition strOr (a b : string) : string := if String.eqb a "" then b else a.

(** The text a slot receives when a value is assigned to [textContent].
    The keys resolved for these slots are literals that are no members of
    [Object.prototype], for which [t] always answers a string. *)
Definition textOf (v : JsVal) : string :=
  match v with
  | VString s => s
  | VUndefined => "undefined"
  | VBuiltin name => name
  end.

Section Page.

(** [fetch n url] is the outcome of the request for [url] issued when [n]
    requests have been issued before it. [toUpperCase] is the method of
    the language's strings. *)
Variable fetch : nat → string → FetchOutcome.
Variable toUpperCase : string → string.

(** *** Bundle loader (lines 55 to 80) *)

(** The guard of line 56. *)
Definition alreadyLoaded (lang : string) (w : World) : bool :=
  bool_decide (lang = currentLang (session w)) && bundleLoaded w.

(** The [try] block up to the assignment: the request is issued, and the
    bundle is available when the response is [ok] and its body parses;
    everything else lands in the [catch] block. *)
Definition request (lang : string) (w : World)
  : World * option (gmap string (gmap string string)) :=
  let w1 := {| session := session w; document := document w;
               fetchLog := fetchLog w ++ [lang] |} in
  match fetch (length (fetchLog w)) (bundleUrl lang) with
  | Response true (Some b) => (w1, Some b)
  | _ => (w1, None)
  end.

Definition setBundle (lang : string) (b : gmap string (gmap string string))
    (w : World) : World :=
  withSession w {| currentLang := lang; currentMode := currentMode (session w);
                   currentTranslations := b |}.

Definition clearBundle (w : World) : World :=
  withSession w {| currentLang := currentLang (session w);
                   currentMode := currentMode (session w);
                   currentTranslations := ∅ |}.

Equations? loadLanguage (lang : string) (w : World) : World by wf (hops lang) lt :=
  loadLanguage lang w with alreadyLoaded lang w => {
    | true := w;
    | false with request lang w => {
        | (w1, Some b) := setBundle lang b w1;
        | (w1, None) with decide (lang = "en") => {
            | right _ := loadLanguage "en" w1;
            | left _ := clearBundle w1 } } }.
Proof. unfold hops. rewrite decide_True by reflexivity. rewrite decide_False by assumption. lia. Qed.

(** The same body run on a call stack of at most [frames] frames:
    [None] when a call would need one frame more. *)
Fixpoint loadLanguageWithin (frames : nat) (lang : string) (w : World)
  : option World :=
  match frames with
  | O => None
  | S frames' =>
      if alreadyLoaded lang w then Some w
      else match request lang w with
           | (w1, Some b) => Some (setBundle lang b w1)
           | (w1, None) =>
               if decide (lang = "en") then Some (clearBundle w1)
               else loadLanguageWithin frames' "en" w1
           end
  end.

(** *** Content refresher (lines 84 to 145) *)

(** The callback of line 104 over the list of keyed elements: elements
    before the one whose callback throws are rewritten, the others are
    left as they were. *)
Fixpoint renderKeyed (s : Session) (els : list (string * string))
  : list (string * string) * Completion :=
  match els with
  | [] => ([], Returned)
  | (key, html) :: rest =>
      let text := t s key in
      if truthy text then
        match processMarkdownOf text with
        | Some htmlContent =>
            let (rest', c) := renderKeyed s rest in
            ((key, htmlContent) :: rest', c)
        | None => ((key, html) :: rest, Threw)
        end
      else
        let (rest', c) := renderKeyed s rest in
        ((key, html) :: rest', c)
  end.

Definition setClasses (d : Dom) (full btn : list string) : Dom :=
  {| keyed := keyed d; htmlLang := htmlLang d; langDisplay := langDisplay d;
     modeToggleText := modeToggleText d;
     fullModeClasses := full; modeToggleClasses := btn;
     navAbout := navAbout d; navExperience := navExperience d;
     navTechnologies := navTechnologies d; navEducation := navEducation d |}.

(** Step 3: the classes that depend on the mode. *)
Definition applyVisibility (m : Mode) (d : Dom) : Dom :=
  if isFull m
  then setClasses d
         (classRemove "hidden" (fullModeClasses d))
         (classRemove "bg-dark-card" (classAdd "bg-gray-700" (modeToggleClasses d)))
  else setClasses d
         (classAdd "hidden" (fullModeClasses d))
         (classRemove "bg-gray-700" (classAdd "bg-dark-card" (modeToggleClasses d))).

(** Steps 2 to 4, after the keyed elements were rewritten. [baseContent]
    is the summary map of the bundle. *)
Definition renderControls (s : Session) (baseContent : gmap string string)
    (d : Dom) : Dom :=
  let d1 :=
    {| keyed := keyed d;
       htmlLang := textOf (jsOr (getProp baseContent "html-lang")
                                (VString (currentLang s)));
       langDisplay := toUpperCase (currentLang s);
       modeToggleText := textOf (t s "mode-toggle-text");
       fullModeClasses := fullModeClasses d;
       modeToggleClasses := modeToggleClasses d;
       navAbout := navAbout d; navExperience := navExperience d;
       navTechnologies := navTechnologies d; navEducation := navEducation d |} in
  let d2 := applyVisibility (currentMode s) d1 in
  {| keyed := keyed d2; htmlLang := htmlLang d2; langDisplay := langDisplay d2;
     modeToggleText := modeToggleText d2;
     fullModeClasses := fullModeClasses d2;
     modeToggleClasses := modeToggleClasses d2;
     navAbout := textOf (t s "nav-about");
     navExperience := textOf (t s "nav-experience");
     navTechnologies := textOf (t s "nav-technologies");
     navEducation := textOf (t s "nav-education") |}.

Definition setKeyed (d : Dom) (els : list (string * string)) : Dom :=
  {| keyed := els; htmlLang := htmlLang d; langDisplay := langDisplay d;
     modeToggleText := modeToggleText d;
     fullModeClasses := fullModeClasses d;
     modeToggleClasses := modeToggleClasses d;
     navAbout := navAbout d; navExperience := navExperience d;
     navTechnologies := navTechnologies d; navEducation := navEducation d |}.

(** Lines 101 to 144, run on a bundle that is not empty. Reading
    ['html-lang'] from a [baseContent] that is [undefined] throws. *)
Definition render (w : World) : World * Completion :=
  let s := session w in
  let baseContent := currentTranslations s !! "summary" in
  let (els, c) := renderKeyed s (keyed (document w)) in
  let d1 := setKeyed (document w) els in
  match c with
  | Threw => (withDocument w d1, Threw)
  | Returned =>
      match baseContent with
      | None => (withDocument w d1, Threw)
      | Some base => (withDocument w (renderControls s base d1), Returned)
      end
  end.

(** Lines 87 to 91: the bundle is loaded when there is none. *)
Definition ensureBundle (w : World) : World :=
  if Nat.eqb (keyCount w) 0 then loadLanguage (currentLang (session w)) w
  else w.

Definition updateContent (w : World) : World * Completion :=
  let w1 := ensureBundle w in
  if Nat.eqb (keyCount w1) 0 then (w1, Returned)
  else render w1.

(** *** Event handlers (lines 147 to 176) *)

(** The page has loaded: the language of the browser becomes the current
    language and the content is refreshed. The listeners are registered
    only when that refresh returns. *)
Definition onDOMContentLoaded (navigatorLanguage : string) (w : World)
  : World * Completion :=
  let initialLang := strOr (beforeDash navigatorLanguage) "en" in
  updateContent
    (withSession w {| currentLang := initialLang;
                      currentMode := currentMode (session w);
                      currentTranslations := currentTranslations (session w) |}).

Definition onLanguageClick (newLang : string) (w : World) : World * Completion :=
  updateContent (loadLanguage newLang w).

Definition onModeToggleClick (w : World) : World * Completion :=
  updateContent
    (withSession w {| currentLang := currentLang (session w);
                      currentMode := flipMode (currentMode (session w));
                      currentTranslations := currentTranslations (session w) |}).

Inductive Event : Type :=
| LanguageClick (newLang : string)
| ModeToggleClick.

(** A handler runs to its end before the next event is handled (the
    events are serialized, section 5 of the specification); what it
    throws is lost. *)
Definition handle (e : Event) (w : World) : World :=
  match e with
  | LanguageClick newLang => fst (onLanguageClick newLang w)
  | ModeToggleClick => fst (onModeToggleClick w)
  end.

(** The operations of the page that can assign the globals. *)
Inductive Operation : Type :=
| OpLoadLanguage (lang : string)
| OpUpdateContent
| OpPageLoad (navigatorLanguage : string)
| OpEvent (e : Event).

Definition run (op : Operation) (w : World) : World :=
  match op with
  | OpLoadLanguage lang => loadLanguage lang w
  | OpUpdateContent => fst (updateContent w)
  | OpPageLoad navigatorLanguage => fst (onDOMContentLoaded navigatorLanguage w)
  | OpEvent e => handle e w
  end.

(** What an operation may do to the one bundle of the session: keep it,
    empty it, or store the body of a request issued during the operation,
    as it was received. *)
Inductive bundleChange (w w' : World) : Prop :=
| bundle_kept :
    currentTranslations (session w') = currentTranslations (session w) →
    bundleChange w w'
| bundle_emptied :
    currentTranslations (session w') = ∅ →
    bundleChange w w'
| bundle_replaced (i : nat) (lang : string) :
    (List.length (fetchLog w) ≤ i)%nat →
    fetchLog w' !! i = Some lang →
    fetch i (bundleUrl lang)
      = Response true (Some (currentTranslations (session w'))) →
    bundleChange w w'.

(** The request fails: the promise rejects, the response is not [ok], or
    its body does not parse. *)
Definition failed (o : FetchOutcome) : bool :=
  match o with
  | Response true (Some _) => false
  | _ => true
  end.

(** The page as first delivered, with the document [d0]. *)
Definition initialWorld (d0 : Dom) : World :=
  {| session := initialSession; document := d0; fetchLog := [] |}.

(** The worlds in which the page can receive a click: the first refresh
    returned, and any number of clicks were handled since. *)
Inductive reachable (d0 : Dom) : World → Prop :=
| reachable_load navigatorLanguage w :
    onDOMContentLoaded navigatorLanguage (initialWorld d0) = (w, Returned) →
    reachable d0 w
| reachable_event e w :
    reachable d0 w → reachable d0 (handle e w).

End Page.

(** A keyed element after a refresh that reached it: its key, and the
    normalized text the key resolves to. *)
Definition renderedElement (s : Session) (el : string * string)
  : string * string :=
  (el.1, processMarkdown (textOf (t s el.1))).

(** The bundle held was served for the current language: some request
    of the log asked for [currentLang] and received this very bundle. *)
Definition served (fetch : nat → string → FetchOutcome) (w : World) : Prop :=
  bundleLoaded w = true →
  ∃ i : nat,
    fetchLog w !! i = Some (currentLang (session w))
    ∧ fetch i (bundleUrl (currentLang (session w)))
      = Response true (Some (currentTranslations (session w))).

(** ** Navigation highlighting (lines 180 to 201)

    The callback of the intersection observer. A navigation link is its
    [href] attribute and its class list; [navLinks] is the list of the
    elements of class [nav-link] in document order. An entry is the [id]
    of the observed section and its [isIntersecting] flag. *)

Record NavLink : Type := mkNavLink {
  href : string;
  linkClasses : list string
}.

Record Entry : Type := mkEntry {
  targetId : string;
  isIntersecting : bool
}.

(** The characters that cannot stand as they are inside the quoted value
    of the selector of line 192: the quote, the backslash, the line
    breaks and the null character. *)
Definition needsEscape (c : ascii) : bool :=
  Ascii.eqb c "034"%char || Ascii.eqb c "092"%char || Ascii.eqb c "010"%char
  || Ascii.eqb c "013"%char || Ascii.eqb c "012"%char || Ascii.eqb c "000"%char.

Definition plainId (id : string) : bool :=
  forallb (λ c, negb (needsEscape c)) (list_ascii_of_string id).

(** [link.classList.remove('active')] and [navLink.classList.add('active')] *)
Definition removeActive (l : NavLink) : NavLink :=
  {| href := href l; linkClasses := classRemove "active" (linkClasses l) |}.

Definition addActive (l : NavLink) : NavLink :=
  {| href := href l; linkClasses := classAdd "active" (linkClasses l) |}.

(** [document.querySelector(`.nav-link[href="#${id}"]`)]: the first link
    whose [href] is the [id] after a hash sign. *)
Definition findLink (id : string) (navLinks : list NavLink)
  : option (nat * NavLink) :=
  list_find (λ l, href l = "#" ++ id) navLinks.

(** The body of the loop of line 190 for one entry. An [id] that would need
    escaping in the selector is outside the model ([None]). *)
Definition observeEntry (entry : Entry) (navLinks : list NavLink)
  : option (list NavLink) :=
  if plainId (targetId entry) then
    match findLink (targetId entry) navLinks with
    | Some (i, _) =>
        let cleared := removeActive <$> navLinks in
        if isIntersecting entry then Some (alter addActive i cleared)
        else Some cleared
    | None => Some navLinks
    end
  else None.

(** The callback: the entries are handled in order. *)
Fixpoint observerCallback (entries : list Entry) (navLinks : list NavLink)
  : option (list NavLink) :=
  match entries with
  | [] => Some navLinks
  | entry :: entries' =>
      match observeEntry entry navLinks with
      | Some navLinks' => observerCallback entries' navLinks'
      | None => None
      end
  end.

Definition isActive (l : NavLink) : bool := hasClass "active" (linkClasses l).

(** The link [l'] is the link [l] up to its [active] class. *)
Definition sameButActive (l l' : NavLink) : Prop :=
  href l' = href l
  ∧ ∀ c : string, c ≠ "active" →
      hasClass c (linkClasses l') = hasClass c (linkClasses l).

(** The classes of the document agree with the mode whenever a bundle
    with a summary map is held: what a refresh that returns establishes. *)
Definition consistent (w : World) : Prop :=
  bundleLoaded w = true →
  is_Some (currentTranslations (session w) !! "summary") →
  visibility (document w) = visibilityFor (currentMode (session w)).

(** ** Sample data

    Two bundles, three networks and a document, on which the statements
    below are exercised. *)

Definition sampleEn : gmap string (gmap string string) :=
  {[ "summary" := {[ "title" := "Hello **world**"; "html-lang" := "en" ]};
     "full" := {[ "title" := "Hello, **whole** world" ]} ]}.

Definition sampleEs : gmap string (gmap string string) :=
  {[ "summary" := {[ "title" := "Hola **mundo**"; "html-lang" := "es" ]};
     "full" := ∅ ]}.

(** Every request fails. *)
Definition netDown (n : nat) (url : string) : FetchOutcome := NetworkError.

(** Only the default language is served. *)
Definition netEnOnly (n : nat) (url : string) : FetchOutcome :=
  if String.eqb url "./i18n/en.json" then Response true (Some sampleEn)
  else Response false None.

(** English and Spanish are served. *)
Definition netBoth (n : nat) (url : string) : FetchOutcome :=
  if String.eqb url "./i18n/en.json" then Response true (Some sampleEn)
  else if String.eqb url "./i18n/es.json" then Response true (Some sampleEs)
  else Response false None.

Definition sampleDom : Dom :=
  {| keyed := [("title", "Title")];
     htmlLang := "en"; langDisplay := "EN"; modeToggleText := "Mode";
     fullModeClasses := ["section"];
     modeToggleClasses := ["btn"; "bg-gray-700"];
     navAbout := "About"; navExperience := "Experience";
     navTechnologies := "Technologies"; navEducation := "Education" |}.

Definition sampleNav : list NavLink :=
  [ {| href := "#about"; linkClasses := ["nav-link"; "active"] |};
    {| href := "#experience"; linkClasses := ["nav-link"] |};
    {| href := "#education"; linkClasses := ["nav-link"; "active"] |} ].

(** A bundle whose body is the empty object. *)
Definition netEmptyBody (n : nat) (url : string) : FetchOutcome :=
  Response true (Some ∅).



(** A document with a key that names a member of [Object.prototype]. *)
Definition sampleDomInherited : Dom :=
  {| keyed := [("title", "Title"); ("toString", "Text"); ("title", "Again")];
     htmlLang := "en"; langDisplay := "EN"; modeToggleText := "Mode";
     fullModeClasses := ["section"];
     modeToggleClasses := ["btn"; "bg-gray-700"];
     navAbout := "About"; navExperience := "Experience";
     navTechnologies := "Technologies"; navEducation := "Education" |}.

(** * Properties *)

(** ** Translation resolver *)

Lemma inherited_modeName m : inherited (modeName m) = false.
Proof. destruct m; reflexivity. Qed.

Lemma missingKey_truthy key : truthy (VString (missingKey key)) = true.
Proof. reflexivity. Qed.

Lemma truthy_VString s : s ≠ "" → truthy (VString s) = true.
Proof.
  intros Hs. simpl. destruct (String.eqb_spec s ""); [contradiction | reflexivity].
Qed.

Lemma getProp_own o key s : o !! key = Some s → getProp o key = VString s.
Proof. intros H. unfold getProp. rewrite H. reflexivity. Qed.

Lemma getProp_plain_absent o key :
  o !! key = None → inherited key = false → getProp o key = VUndefined.
Proof. intros H Hi. unfold getProp. rewrite H, Hi. reflexivity. Qed.

Lemma getProp_plain o key :
  inherited key = false → getProp o key ≠ VBuiltin key ∧
  (getProp o key = VUndefined ∨ ∃ s, getProp o key = VString s).
Proof.
  intros Hi. unfold getProp. rewrite Hi.
  destruct (o !! key); split; try discriminate; eauto.
Qed.

Lemma optGetProp_plain o key :
  inherited key = false →
  optGetProp o key = VUndefined ∨ ∃ s, optGetProp o key = VString s.
Proof.
  intros Hi. destruct o as [m|]; simpl; [|auto].
  apply (getProp_plain m) in Hi. tauto.
Qed.

(** For a key that names no member of [Object.prototype], the resolver
    answers a string that is not empty. *)
Lemma t_plain_string s key :
  inherited key = false → ∃ text, t s key = VString text ∧ text ≠ "".
Proof.
  intros Hi. unfold t, jsOr.
  destruct (optGetProp_plain (currentTranslations s !! modeName (currentMode s)) key Hi)
    as [-> | [a ->]];
  destruct (optGetProp_plain (currentTranslations s !! "summary") key Hi)
    as [-> | [b ->]];
  destruct (currentMode s); simpl;
  repeat match goal with
         | |- context [String.eqb ?x ""] => destruct (String.eqb_spec x ""); simpl
         end;
  eauto; eexists; (split; [reflexivity | discriminate]).
Qed.

(** A key of the active mode whose text is not empty resolves to that text. *)
Lemma t_present s key m text :
  currentTranslations s !! modeName (currentMode s) = Some m →
  m !! key = Some text →
  text ≠ "" →
  t s key = VString text.
Proof.
  intros Hm Hk Hne. unfold t. rewrite Hm. simpl.
  rewrite (getProp_own _ _ _ Hk), (truthy_VString _ Hne). simpl.
  unfold jsOr. rewrite (truthy_VString _ Hne). reflexivity.
Qed.

(** In full mode, a key that the full map does not answer resolves to its
    summary text, when that text is not empty. *)
Lemma t_summary_fallback s key m text :
  currentMode s = Full →
  optGetProp (currentTranslations s !! "full") key = VUndefined →
  currentTranslations s !! "summary" = Some m →
  m !! key = Some text →
  text ≠ "" →
  t s key = VString text.
Proof.
  intros Hmode Hfull Hm Hk Hne. unfold t. rewrite Hmode. simpl.
  rewrite Hfull, Hm. simpl.
  rewrite (getProp_own _ _ _ Hk). unfold jsOr.
  rewrite (truthy_VString _ Hne). reflexivity.
Qed.

(** A key that neither map answers resolves to the sentinel. *)
Lemma t_missing s key :
  optGetProp (currentTranslations s !! modeName (currentMode s)) key = VUndefined →
  optGetProp (currentTranslations s !! "summary") key = VUndefined →
  t s key = VString (missingKey key).
Proof.
  intros Ha Hs. unfold t. rewrite Ha, Hs. simpl.
  destruct (isFull (currentMode s)); reflexivity.
Qed.

(** With an empty bundle every key resolves to the sentinel. *)
Lemma t_empty_bundle s key :
  currentTranslations s = ∅ → t s key = VString (missingKey key).
Proof.
  intros He. apply t_missing; rewrite He, lookup_empty; reflexivity.
Qed.

(** The two examples of the specification. *)
Example t_example_summary_text :
  t {| currentLang := "en"; currentMode := Full;
       currentTranslations := {[ "summary" := {[ "a" := "Hi" ]}; "full" := ∅ ]} |} "a"
  = VString "Hi".
Proof. vm_compute. reflexivity. Qed.

Example t_example_missing :
  t {| currentLang := "en"; currentMode := Full;
       currentTranslations := {[ "summary" := {[ "a" := "Hi" ]}; "full" := ∅ ]} |} "b"
  = VString "!!MISSING_KEY:b!!".
Proof. vm_compute. reflexivity. Qed.

(** C1. A key that is present in the map of the current mode with the
    empty text does not resolve to that text: the resolver answers the
    sentinel, as if the key were missing. *)
Theorem t_present_empty_text :
  let s := {| currentLang := "en"; currentMode := Summary;
              currentTranslations := {[ "summary" := {[ "a" := "" ]} ]} |} in
  (∃ m, currentTranslations s !! modeName (currentMode s) = Some m
        ∧ m !! "a" = Some "")
  ∧ t s "a" = VString "!!MISSING_KEY:a!!"
  ∧ t s "a" ≠ VString "".
Proof.
  split; [|split].
  - eexists. split; vm_compute; reflexivity.
  - vm_compute. reflexivity.
  - vm_compute. discriminate.
Qed.

(** C2. In full mode, a key that is absent from the full map and present
    in the summary map with the empty text does not resolve to the
    summary text: the resolver answers the sentinel. *)
Theorem t_fallback_empty_text :
  let s := {| currentLang := "en"; currentMode := Full;
              currentTranslations :=
                {[ "summary" := {[ "a" := "" ]}; "full" := ∅ ]} |} in
  (∃ f m, currentTranslations s !! "full" = Some f ∧ f !! "a" = None
          ∧ currentTranslations s !! "summary" = Some m ∧ m !! "a" = Some "")
  ∧ t s "a" = VString "!!MISSING_KEY:a!!"
  ∧ t s "a" ≠ VString "".
Proof.
  split; [|split].
  - do 2 eexists. repeat split; vm_compute; reflexivity.
  - vm_compute. reflexivity.
  - vm_compute. discriminate.
Qed.

(** C3. For the key ["constructor"], absent from both maps of the
    bundle, the resolver answers neither the sentinel nor any string: it
    answers the member that the summary map inherits. *)
Theorem t_inherited_key_not_string :
  let s := {| currentLang := "en"; currentMode := Summary;
              currentTranslations := {[ "summary" := ∅; "full" := ∅ ]} |} in
  (∃ f m, currentTranslations s !! "full" = Some f ∧ f !! "constructor" = None
          ∧ currentTranslations s !! "summary" = Some m
          ∧ m !! "constructor" = None)
  ∧ t s "constructor" = VBuiltin "constructor"
  ∧ isString (t s "constructor") = false.
Proof.
  split; [|split].
  - do 2 eexists. repeat split; vm_compute; reflexivity.
  - vm_compute. reflexivity.
  - vm_compute. reflexivity.
Qed.

(** ** Bundle loader *)

Local Open Scope list_scope.

Section LoaderFacts.

Variable fetch : nat → string → FetchOutcome.

(** The body of [loadLanguage], as written in the source. *)
Lemma loadLanguage_body lang w :
  loadLanguage fetch lang w =
  if alreadyLoaded lang w then w
  else match request fetch lang w with
       | (w1, Some b) => setBundle lang b w1
       | (w1, None) =>
           if decide (lang = "en") then clearBundle w1
           else loadLanguage fetch "en" w1
       end.
Proof.
  rewrite loadLanguage_equation_1.
  destruct (alreadyLoaded lang w); simpl; [reflexivity|].
  destruct (request fetch lang w) as [w1 [b|]]; simpl; [reflexivity|].
  destruct (decide (lang = "en")); reflexivity.
Qed.

Lemma request_world lang w :
  (request fetch lang w).1
  = {| session := session w; document := document w;
       fetchLog := fetchLog w ++ [lang] |}.
Proof.
  unfold request.
  destruct (fetch _ _) as [|[] [b|]]; reflexivity.
Qed.

Lemma request_some lang w b :
  (request fetch lang w).2 = Some b ↔
  fetch (List.length (fetchLog w)) (bundleUrl lang) = Response true (Some b).
Proof.
  unfold request.
  destruct (fetch _ _) as [|[] [b'|]]; simpl; split; intros H;
    try discriminate; congruence.
Qed.

Lemma request_none lang w :
  (request fetch lang w).2 = None ↔
  failed (fetch (List.length (fetchLog w)) (bundleUrl lang)) = true.
Proof.
  unfold request, failed.
  destruct (fetch _ _) as [|[] [b'|]]; simpl; split; intros H;
    try discriminate; reflexivity.
Qed.

(** The guard of line 56: nothing is requested and nothing changes. *)
Lemma loadLanguage_already lang w :
  alreadyLoaded lang w = true → loadLanguage fetch lang w = w.
Proof. intros H. rewrite loadLanguage_body, H. reflexivity. Qed.

Lemma alreadyLoaded_spec lang w :
  alreadyLoaded lang w = true ↔
  lang = currentLang (session w) ∧ bundleLoaded w = true.
Proof.
  unfold alreadyLoaded. rewrite andb_true_iff, bool_decide_eq_true. tauto.
Qed.

Lemma bundleLoaded_keyCount w :
  bundleLoaded w = negb (Nat.eqb (keyCount w) 0).
Proof.
  unfold bundleLoaded.
  destruct (Nat.eqb_spec (keyCount w) 0) as [E|E]; simpl.
  - apply bool_decide_eq_false. lia.
  - apply bool_decide_eq_true. lia.
Qed.

Lemma keyCount_zero w :
  keyCount w = 0 ↔ currentTranslations (session w) = ∅.
Proof. unfold keyCount. apply map_size_empty_iff. Qed.

(** The default language is loaded without any further call. *)
Lemma loadLanguage_en w :
  loadLanguage fetch "en" w =
  if alreadyLoaded "en" w then w
  else match request fetch "en" w with
       | (w1, Some b) => setBundle "en" b w1
       | (w1, None) => clearBundle w1
       end.
Proof. rewrite loadLanguage_body. reflexivity. Qed.

Lemma loadLanguageWithin_en frames w :
  loadLanguageWithin fetch (S frames) "en" w = Some (loadLanguage fetch "en" w).
Proof.
  rewrite loadLanguage_en. simpl.
  destruct (alreadyLoaded "en" w); [reflexivity|].
  destruct (request fetch "en" w) as [w1 [b|]]; reflexivity.
Qed.

Lemma loadLanguageWithin_two frames lang w :
  loadLanguageWithin fetch (S (S frames)) lang w
  = Some (loadLanguage fetch lang w).
Proof.
  rewrite loadLanguage_body.
  change (loadLanguageWithin fetch (S (S frames)) lang w) with
    (if alreadyLoaded lang w then Some w
     else match request fetch lang w with
          | (w1, Some b) => Some (setBundle lang b w1)
          | (w1, None) =>
              if decide (lang = "en") then Some (clearBundle w1)
              else loadLanguageWithin fetch (S frames) "en" w1
          end).
  destruct (alreadyLoaded lang w); [reflexivity|].
  destruct (request fetch lang w) as [w1 [b|]]; [reflexivity|].
  destruct (decide (lang = "en")); [reflexivity|].
  apply loadLanguageWithin_en.
Qed.

(** The loader touches neither the document nor the mode, and only adds
    to the log: at most two requests. *)
Lemma loadLanguage_en_frame w :
  document (loadLanguage fetch "en" w) = document w
  ∧ currentMode (session (loadLanguage fetch "en" w)) = currentMode (session w)
  ∧ (fetchLog (loadLanguage fetch "en" w) = fetchLog w
     ∨ fetchLog (loadLanguage fetch "en" w) = fetchLog w ++ ["en"]).
Proof.
  rewrite loadLanguage_en.
  destruct (alreadyLoaded "en" w); [auto|].
  pose proof (request_world "en" w) as Hw.
  destruct (request fetch "en" w) as [w1 [b|]]; simpl in Hw; subst w1;
    simpl; auto.
Qed.

Lemma loadLanguage_frame lang w :
  document (loadLanguage fetch lang w) = document w
  ∧ currentMode (session (loadLanguage fetch lang w)) = currentMode (session w)
  ∧ (fetchLog (loadLanguage fetch lang w) = fetchLog w
     ∨ fetchLog (loadLanguage fetch lang w) = fetchLog w ++ [lang]
     ∨ (lang ≠ "en"
        ∧ fetchLog (loadLanguage fetch lang w) = fetchLog w ++ [lang; "en"])).
Proof.
  rewrite loadLanguage_body.
  destruct (alreadyLoaded lang w); [auto|].
  pose proof (request_world lang w) as Hw.
  destruct (request fetch lang w) as [w1 [b|]]; simpl in Hw; subst w1;
    [simpl; auto|].
  destruct (decide (lang = "en")); [simpl; auto|].
  match goal with |- context [loadLanguage fetch "en" ?w1] =>
    destruct (loadLanguage_en_frame w1) as (Hd & Hm & [Hl | Hl]) end;
    rewrite Hd, Hm, Hl; simpl; rewrite <- ?app_assoc; simpl; auto 6.
Qed.

Lemma loadLanguage_document lang w :
  document (loadLanguage fetch lang w) = document w.
Proof. apply loadLanguage_frame. Qed.

Lemma loadLanguage_mode lang w :
  currentMode (session (loadLanguage fetch lang w)) = currentMode (session w).
Proof. apply loadLanguage_frame. Qed.

Lemma loadLanguage_log lang w :
  ∃ more, fetchLog (loadLanguage fetch lang w) = fetchLog w ++ more
          ∧ (List.length more ≤ 2)%nat.
Proof.
  destruct (loadLanguage_frame lang w) as (_ & _ & [H | [H | H]]).
  - exists []. rewrite app_nil_r. split; [exact H | simpl; lia].
  - exists [lang]. split; [exact H | simpl; lia].
  - exists [lang; "en"]. split; [apply H | simpl; lia].
Qed.

End LoaderFacts.

Section LoaderClaims.

Variable fetch : nat → string → FetchOutcome.

Lemma bundleLoaded_empty w :
  currentTranslations (session w) = ∅ → bundleLoaded w = false.
Proof.
  intros H. rewrite bundleLoaded_keyCount.
  apply keyCount_zero in H. rewrite H. reflexivity.
Qed.

(** After the default language was asked for, either it is the current
    language or no bundle is held. *)
Lemma loadLanguage_en_result w :
  currentLang (session (loadLanguage fetch "en" w)) = "en"
  ∨ currentTranslations (session (loadLanguage fetch "en" w)) = ∅.
Proof.
  rewrite loadLanguage_en.
  destruct (alreadyLoaded "en" w) eqn:G.
  - apply alreadyLoaded_spec in G. left. symmetry. apply G.
  - destruct (request fetch "en" w) as [w1 [b|]]; simpl; auto.
Qed.

(** A call that leaves [lang] current with a bundle loaded issued at most
    one request. *)
Lemma loadLanguage_settled_log lang w :
  currentLang (session (loadLanguage fetch lang w)) = lang →
  bundleLoaded (loadLanguage fetch lang w) = true →
  (List.length (fetchLog (loadLanguage fetch lang w))
   ≤ S (List.length (fetchLog w)))%nat.
Proof.
  rewrite loadLanguage_body.
  destruct (alreadyLoaded lang w); [intros; lia|].
  pose proof (request_world fetch lang w) as Hw.
  destruct (request fetch lang w) as [w1 [b|]]; simpl in Hw; subst w1.
  - intros _ _. simpl. rewrite length_app. simpl. lia.
  - destruct (decide (lang = "en")) as [E|E].
    + intros _ Hl. rewrite bundleLoaded_empty in Hl by reflexivity. discriminate.
    + intros Hc Hl.
      match type of Hc with context [loadLanguage fetch "en" ?w1] =>
        destruct (loadLanguage_en_result w1) as [R|R] end.
      * congruence.
      * rewrite (bundleLoaded_empty _ R) in Hl. discriminate.
Qed.

(** C4. When a call [loadLanguage lang] leaves [lang] as the current
    language with a bundle loaded, a second call in a row is a no-op: it
    returns the world it received, session and request log included, so
    the two calls together issue at most one request. *)
Theorem loadLanguage_twice lang w :
  currentLang (session (loadLanguage fetch lang w)) = lang →
  bundleLoaded (loadLanguage fetch lang w) = true →
  loadLanguage fetch lang (loadLanguage fetch lang w) = loadLanguage fetch lang w
  ∧ (List.length (fetchLog (loadLanguage fetch lang (loadLanguage fetch lang w)))
     ≤ S (List.length (fetchLog w)))%nat.
Proof.
  intros Hc Hl.
  assert (Hnoop : loadLanguage fetch lang (loadLanguage fetch lang w)
                  = loadLanguage fetch lang w).
  { apply loadLanguage_already, alreadyLoaded_spec. split; [symmetry|]; assumption. }
  split; [exact Hnoop|].
  rewrite Hnoop. apply loadLanguage_settled_log; assumption.
Qed.

(** C5. When the request for a language other than ['en'] fails, the
    loader goes on to load ['en']: the result is that of
    [loadLanguage 'en'] after the failed request. If ['en'] is already
    current with its bundle loaded, that bundle stays; otherwise ['en'] is
    requested, and when that request succeeds its body becomes the bundle
    and ['en'] the current language. *)
Theorem loadLanguage_fallback lang w :
  lang ≠ "en" →
  alreadyLoaded lang w = false →
  failed (fetch (List.length (fetchLog w)) (bundleUrl lang)) = true →
  let w1 := {| session := session w; document := document w;
               fetchLog := fetchLog w ++ [lang] |} in
  loadLanguage fetch lang w = loadLanguage fetch "en" w1
  ∧ (alreadyLoaded "en" w = true →
     loadLanguage fetch lang w = w1
     ∧ currentLang (session (loadLanguage fetch lang w)) = "en")
  ∧ (∀ b, alreadyLoaded "en" w = false →
          fetch (S (List.length (fetchLog w))) (bundleUrl "en")
            = Response true (Some b) →
          currentLang (session (loadLanguage fetch lang w)) = "en"
          ∧ currentTranslations (session (loadLanguage fetch lang w)) = b
          ∧ fetchLog (loadLanguage fetch lang w) = fetchLog w ++ [lang; "en"]).
Proof.
  intros Hne Hg Hf w1.
  assert (Hstep : loadLanguage fetch lang w = loadLanguage fetch "en" w1).
  { rewrite loadLanguage_body, Hg.
    pose proof (request_world fetch lang w) as Hw.
    apply request_none in Hf.
    destruct (request fetch lang w) as [w' [b|]]; simpl in *; [discriminate|].
    subst w'. rewrite decide_False by assumption. reflexivity. }
  split; [exact Hstep|]. split.
  - intros Hen. rewrite Hstep.
    assert (Hen1 : alreadyLoaded "en" w1 = true) by exact Hen.
    rewrite (loadLanguage_already fetch _ _ Hen1). split; [reflexivity|].
    apply alreadyLoaded_spec in Hen. symmetry. apply Hen.
  - intros b Hen Hb. rewrite Hstep, loadLanguage_en.
    assert (Hen1 : alreadyLoaded "en" w1 = false) by exact Hen.
    rewrite Hen1.
    assert (Hreq : (request fetch "en" w1).2 = Some b).
    { apply request_some. subst w1. simpl. rewrite length_app. simpl.
      rewrite Nat.add_1_r. exact Hb. }
    pose proof (request_world fetch "en" w1) as Hw.
    destruct (request fetch "en" w1) as [w2 r]. simpl in *. subst w2 r.
    simpl. rewrite <- app_assoc. auto.
Qed.

(** C6. Every call of [loadLanguage] returns within two stack frames:
    the call itself and at most one call for ['en']. It requests the
    language asked for at most once and then ['en'] at most once, with no
    other request. When the request for [lang] fails and the request for
    the fallback fails too, or [lang] is itself ['en'], the bundle is
    left empty. *)
Theorem loadLanguage_single_hop lang w :
  (∀ frames, (2 ≤ frames)%nat →
     loadLanguageWithin fetch frames lang w = Some (loadLanguage fetch lang w))
  ∧ (fetchLog (loadLanguage fetch lang w) = fetchLog w
     ∨ fetchLog (loadLanguage fetch lang w) = fetchLog w ++ [lang]
     ∨ (lang ≠ "en"
        ∧ fetchLog (loadLanguage fetch lang w) = fetchLog w ++ [lang; "en"]))
  ∧ (alreadyLoaded lang w = false →
     failed (fetch (List.length (fetchLog w)) (bundleUrl lang)) = true →
     lang = "en"
     ∨ (alreadyLoaded "en" w = false
        ∧ failed (fetch (S (List.length (fetchLog w))) (bundleUrl "en")) = true) →
     currentTranslations (session (loadLanguage fetch lang w)) = ∅).
Proof.
  split; [|split].
  - intros [|[|frames]] Hf; try lia. apply loadLanguageWithin_two.
  - apply loadLanguage_frame.
  - intros Hg Hf Hfb.
    rewrite loadLanguage_body, Hg.
    pose proof (request_world fetch lang w) as Hw.
    apply request_none in Hf.
    destruct (request fetch lang w) as [w1 [b|]]; simpl in *; [discriminate|].
    subst w1.
    destruct (decide (lang = "en")) as [E|E]; [reflexivity|].
    destruct Hfb as [?|[Hen Hf2]]; [contradiction|].
    rewrite loadLanguage_en.
    match goal with |- context [alreadyLoaded "en" ?w1] =>
      assert (Hen1 : alreadyLoaded "en" w1 = false) by exact Hen;
      rewrite Hen1;
      assert (Hreq : (request fetch "en" w1).2 = None)
    end.
    { apply request_none. simpl. rewrite length_app. simpl.
      rewrite Nat.add_1_r. exact Hf2. }
    match goal with |- context [request fetch "en" ?w1] =>
      destruct (request fetch "en" w1) as [w2 r] end.
    simpl in Hreq. subst r. reflexivity.
Qed.

End LoaderClaims.

(** With the network down, [loadLanguage 'en'] called twice requests
    ['en'] twice: the second call is a no-op only once a bundle is held. *)
Example loadLanguage_twice_network_down :
  fetchLog (loadLanguage netDown "en"
              (loadLanguage netDown "en" (initialWorld sampleDom)))
  = ["en"; "en"].
Proof. vm_compute. reflexivity. Qed.

Lemma loadLanguage_twice_witness :
  let w := initialWorld sampleDom in
  currentLang (session (loadLanguage netBoth "es" w)) = "es"
  ∧ bundleLoaded (loadLanguage netBoth "es" w) = true
  ∧ loadLanguage netBoth "es" (loadLanguage netBoth "es" w)
    = loadLanguage netBoth "es" w
  ∧ (List.length (fetchLog (loadLanguage netBoth "es" (loadLanguage netBoth "es" w)))
     ≤ S (List.length (fetchLog w)))%nat.
Proof.
  intros w.
  split; [vm_compute; reflexivity|].
  split; [vm_compute; reflexivity|].
  apply (loadLanguage_twice netBoth "es" w); vm_compute; reflexivity.
Defined.

Lemma loadLanguage_fallback_witness :
  let w := initialWorld sampleDom in
  currentLang (session (loadLanguage netEnOnly "es" w)) = "en"
  ∧ currentTranslations (session (loadLanguage netEnOnly "es" w)) = sampleEn
  ∧ fetchLog (loadLanguage netEnOnly "es" w) = ["es"; "en"].
Proof.
  intros w.
  refine (proj2 (proj2 (loadLanguage_fallback netEnOnly "es" w _ _ _))
            sampleEn _ _);
    solve [discriminate | vm_compute; reflexivity].
Defined.

Lemma loadLanguage_single_hop_witness :
  let w := initialWorld sampleDom in
  loadLanguageWithin netDown 2 "es" w = Some (loadLanguage netDown "es" w)
  ∧ currentTranslations (session (loadLanguage netDown "es" w)) = ∅.
Proof.
  intros w.
  destruct (loadLanguage_single_hop netDown "es" w) as (Hframes & _ & Hempty).
  split.
  - apply Hframes. lia.
  - apply Hempty; [vm_compute; reflexivity | vm_compute; reflexivity |].
    right. split; vm_compute; reflexivity.
Defined.

(** ** Content refresher *)

Lemma hasClass_add c l : hasClass c (classAdd c l) = true.
Proof.
  unfold hasClass, classAdd.
  destruct (bool_decide (c ∈ l)) eqn:E; [exact E|].
  apply bool_decide_eq_true, elem_of_app. right.
  apply list_elem_of_singleton. reflexivity.
Qed.

Lemma hasClass_add_ne c c' l : c ≠ c' → hasClass c (classAdd c' l) = hasClass c l.
Proof.
  intros Hne. unfold hasClass, classAdd.
  destruct (bool_decide (c' ∈ l)); [reflexivity|].
  apply bool_decide_ext. rewrite elem_of_app, list_elem_of_singleton. tauto.
Qed.

Lemma hasClass_remove c l : hasClass c (classRemove c l) = false.
Proof.
  unfold hasClass, classRemove. apply bool_decide_eq_false.
  rewrite list_elem_of_filter. tauto.
Qed.

Lemma hasClass_remove_ne c c' l :
  c ≠ c' → hasClass c (classRemove c' l) = hasClass c l.
Proof.
  intros Hne. unfold hasClass, classRemove.
  apply bool_decide_ext. rewrite list_elem_of_filter. tauto.
Qed.

(** After step 3 the three classes are as the mode prescribes. *)
Lemma applyVisibility_visibility m d :
  visibility (applyVisibility m d) = visibilityFor m.
Proof.
  unfold visibility, visibilityFor, applyVisibility.
  destruct m; cbn [isFull setClasses fullModeClasses modeToggleClasses negb].
  - rewrite hasClass_add, hasClass_remove.
    rewrite hasClass_remove_ne, hasClass_add by discriminate. reflexivity.
  - rewrite hasClass_remove, hasClass_remove.
    rewrite hasClass_remove_ne, hasClass_add by discriminate. reflexivity.
Qed.

Lemma renderKeyed_keys s els : (renderKeyed s els).1.*1 = els.*1.
Proof.
  induction els as [|[key html] rest IH]; [reflexivity|].
  cbn [renderKeyed]. destruct (truthy (t s key)).
  - destruct (processMarkdownOf (t s key)); [|reflexivity].
    destruct (renderKeyed s rest) as [rest' c].
    cbn [fst] in *. rewrite !fmap_cons, IH. reflexivity.
  - destruct (renderKeyed s rest) as [rest' c].
    cbn [fst] in *. rewrite !fmap_cons, IH. reflexivity.
Qed.

(** When every key is plain, no callback throws. *)
Lemma renderKeyed_plain s els :
  Forall (λ el : string * string, inherited el.1 = false) els →
  (renderKeyed s els).2 = Returned.
Proof.
  induction 1 as [|[key html] rest Hk _ IH]; [reflexivity|].
  simpl in *. destruct (t_plain_string s key Hk) as (text & -> & Hne).
  rewrite (truthy_VString _ Hne). simpl.
  destruct (renderKeyed s rest) as [rest' c]. exact IH.
Qed.

Section RefresherFacts.

Variable fetch : nat → string → FetchOutcome.
Variable toUpperCase : string → string.

Lemma render_frame w :
  session (render toUpperCase w).1 = session w
  ∧ fetchLog (render toUpperCase w).1 = fetchLog w
  ∧ (keyed (document (render toUpperCase w).1)).*1 = (keyed (document w)).*1.
Proof.
  unfold render.
  pose proof (renderKeyed_keys (session w) (keyed (document w))) as Hk.
  destruct (renderKeyed (session w) (keyed (document w))) as [els c].
  cbn [fst] in Hk.
  destruct c; [|repeat split; exact Hk].
  destruct (currentTranslations (session w) !! "summary");
    [|repeat split; exact Hk].
  unfold renderControls, applyVisibility.
  destruct (isFull (currentMode (session w))); repeat split; exact Hk.
Qed.

(** A refresh that returns leaves the classes as the mode prescribes; a
    refresh that throws does not reach them. *)
Lemma render_visibility w :
  visibility (document (render toUpperCase w).1) =
  match (render toUpperCase w).2 with
  | Returned => visibilityFor (currentMode (session w))
  | Threw => visibility (document w)
  end.
Proof.
  unfold render.
  destruct (renderKeyed (session w) (keyed (document w))) as [els c].
  destruct c; [|reflexivity].
  destruct (currentTranslations (session w) !! "summary") as [base|];
    [|reflexivity].
  simpl. unfold renderControls.
  match goal with |- context [applyVisibility ?m ?d] =>
    pose proof (applyVisibility_visibility m d) as Hv;
    unfold visibility in *; simpl; exact Hv end.
Qed.

Lemma render_returns w :
  plainKeys (document w) →
  (render toUpperCase w).2 =
  match currentTranslations (session w) !! "summary" with
  | Some _ => Returned
  | None => Threw
  end.
Proof.
  intros Hp. unfold render.
  pose proof (renderKeyed_plain (session w) _ Hp) as Hr.
  destruct (renderKeyed (session w) (keyed (document w))) as [els c].
  simpl in Hr. subst c.
  destruct (currentTranslations (session w) !! "summary"); reflexivity.
Qed.

Lemma render_no_summary w :
  currentTranslations (session w) !! "summary" = None →
  (render toUpperCase w).2 = Threw.
Proof.
  intros Hs. unfold render.
  destruct (renderKeyed (session w) (keyed (document w))) as [els c].
  destruct c; [|reflexivity]. rewrite Hs. reflexivity.
Qed.

Lemma ensureBundle_frame w :
  document (ensureBundle fetch w) = document w
  ∧ currentMode (session (ensureBundle fetch w)) = currentMode (session w).
Proof.
  unfold ensureBundle. destruct (Nat.eqb (keyCount w) 0); [|auto].
  split; [apply loadLanguage_document | apply loadLanguage_mode].
Qed.

Lemma ensureBundle_loaded w :
  bundleLoaded w = true → ensureBundle fetch w = w.
Proof.
  rewrite bundleLoaded_keyCount. unfold ensureBundle.
  destruct (Nat.eqb (keyCount w) 0); [discriminate | reflexivity].
Qed.

Lemma updateContent_loaded w :
  bundleLoaded w = true →
  updateContent fetch toUpperCase w = render toUpperCase w.
Proof.
  intros Hl. unfold updateContent. rewrite (ensureBundle_loaded _ Hl).
  rewrite bundleLoaded_keyCount in Hl.
  destruct (Nat.eqb (keyCount w) 0); [discriminate | reflexivity].
Qed.

Lemma updateContent_session w :
  session (updateContent fetch toUpperCase w).1 = session (ensureBundle fetch w)
  ∧ fetchLog (updateContent fetch toUpperCase w).1
    = fetchLog (ensureBundle fetch w).
Proof.
  unfold updateContent.
  destruct (Nat.eqb (keyCount (ensureBundle fetch w)) 0); [auto|].
  destruct (render_frame (ensureBundle fetch w)) as (Hs & Hl & _). auto.
Qed.

(** C10. When the bundle is still empty after the loading attempt of
    [updateContent], the function returns at once: the document is the
    one it received, slot for slot, and the world it leaves is the one
    the loading attempt left. *)
Theorem updateContent_empty_bundle w :
  keyCount (ensureBundle fetch w) = 0 →
  updateContent fetch toUpperCase w = (ensureBundle fetch w, Returned)
  ∧ document (updateContent fetch toUpperCase w).1 = document w.
Proof.
  intros Hz.
  assert (Hu : updateContent fetch toUpperCase w = (ensureBundle fetch w, Returned)).
  { unfold updateContent. rewrite Hz. reflexivity. }
  split; [exact Hu|].
  rewrite Hu. apply ensureBundle_frame.
Qed.

End RefresherFacts.

Lemma updateContent_empty_bundle_witness :
  let w := initialWorld sampleDom in
  keyCount (ensureBundle netDown w) = 0
  ∧ updateContent netDown id w = (ensureBundle netDown w, Returned)
  ∧ document (updateContent netDown id w).1 = sampleDom.
Proof.
  intros w.
  split; [vm_compute; reflexivity|].
  apply (updateContent_empty_bundle netDown id w). vm_compute. reflexivity.
Defined.

(** ** The page under events *)

Lemma plainKeys_keys d d' :
  (keyed d').*1 = (keyed d).*1 → plainKeys d → plainKeys d'.
Proof.
  unfold plainKeys. intros Hk Hp.
  apply (Forall_fmap fst (λ k : string, inherited k = false)).
  rewrite Hk. apply Forall_fmap. exact Hp.
Qed.


Section PageFacts.

Variable fetch : nat → string → FetchOutcome.
Variable toUpperCase : string → string.

(** Every refresh of a document with plain keys leaves the keys as they
    were and the classes consistent with the mode. *)
Lemma updateContent_consistent w :
  plainKeys (document w) →
  plainKeys (document (updateContent fetch toUpperCase w).1)
  ∧ consistent (updateContent fetch toUpperCase w).1.
Proof.
  intros Hp. unfold updateContent.
  destruct (ensureBundle_frame fetch w) as (Hd & _).
  assert (Hp1 : plainKeys (document (ensureBundle fetch w))) by (rewrite Hd; exact Hp).
  destruct (Nat.eqb (keyCount (ensureBundle fetch w)) 0) eqn:Hz.
  - split; [exact Hp1|]. intros Hl. cbn [fst] in Hl.
    rewrite bundleLoaded_keyCount, Hz in Hl. discriminate.
  - destruct (render_frame toUpperCase (ensureBundle fetch w)) as (Hs & _ & Hk).
    split; [exact (plainKeys_keys _ _ Hk Hp1)|].
    intros _ Hsum. rewrite Hs in Hsum |- *.
    rewrite render_visibility, (render_returns toUpperCase _ Hp1).
    destruct Hsum as [base ->]. reflexivity.
Qed.

Lemma handle_shape e w :
  ∃ w0, document w0 = document w
        ∧ handle fetch toUpperCase e w = (updateContent fetch toUpperCase w0).1.
Proof.
  destruct e as [newLang|]; eexists; (split; [|reflexivity]).
  - apply loadLanguage_document.
  - reflexivity.
Qed.

(** The invariant of the page. *)
Lemma reachable_consistent d0 w :
  plainKeys d0 →
  reachable fetch toUpperCase d0 w →
  plainKeys (document w) ∧ consistent w.
Proof.
  intros Hp0. induction 1 as [nav w Hload | e w Hr IH].
  - unfold onDOMContentLoaded in Hload.
    match type of Hload with updateContent _ _ ?w0 = _ =>
      pose proof (updateContent_consistent w0 Hp0) as Hc end.
    rewrite Hload in Hc. exact Hc.
  - destruct (handle_shape e w) as (w0 & Hd & ->).
    apply updateContent_consistent. rewrite Hd. apply IH.
Qed.

Lemma onModeToggleClick_loaded w :
  bundleLoaded w = true →
  onModeToggleClick fetch toUpperCase w
  = render toUpperCase
      (withSession w {| currentLang := currentLang (session w);
                        currentMode := flipMode (currentMode (session w));
                        currentTranslations := currentTranslations (session w) |}).
Proof. intros Hl. unfold onModeToggleClick. apply updateContent_loaded. exact Hl. Qed.



(** One click changes both the mode and the classes. *)
Lemma toggle_once_visibility w :
  plainKeys (document w) →
  bundleLoaded w = true →
  is_Some (currentTranslations (session w) !! "summary") →
  visibility (document (handle fetch toUpperCase ModeToggleClick w))
  = visibilityFor (flipMode (currentMode (session w))).
Proof.
  intros Hp Hl [base Hsum]. cbn [handle].
  rewrite (onModeToggleClick_loaded w Hl).
  rewrite render_visibility, render_returns by exact Hp.
  cbn [withSession session currentTranslations currentMode].
  rewrite Hsum. reflexivity.
Qed.

End PageFacts.


(** ** One bundle at a time *)

Section BundleFacts.

Variable fetch : nat → string → FetchOutcome.
Variable toUpperCase : string → string.

Lemma bundleChange_trans w w1 w2 :
  fetchLog w `prefix_of` fetchLog w1 →
  fetchLog w1 `prefix_of` fetchLog w2 →
  bundleChange fetch w w1 →
  bundleChange fetch w1 w2 →
  bundleChange fetch w w2.
Proof.
  intros [m1 H1] [m2 H2] C1 C2.
  destruct C2 as [K2 | E2 | i l Hi Hlog Hf].
  - destruct C1 as [K1 | E1 | i l Hi Hlog Hf].
    + apply bundle_kept. congruence.
    + apply bundle_emptied. congruence.
    + apply (bundle_replaced fetch w w2 i l); [exact Hi | | congruence].
      rewrite H2. apply lookup_app_l_Some. exact Hlog.
  - apply bundle_emptied. exact E2.
  - apply (bundle_replaced fetch w w2 i l); [|exact Hlog | exact Hf].
    rewrite H1, length_app in Hi. lia.
Qed.

Lemma loadLanguage_prefix lang w :
  fetchLog w `prefix_of` fetchLog (loadLanguage fetch lang w).
Proof.
  destruct (loadLanguage_log fetch lang w) as (more & H & _).
  exists more. exact H.
Qed.

Lemma request_change lang w :
  match request fetch lang w with
  | (w1, Some b) => bundleChange fetch w (setBundle lang b w1)
  | (w1, None) => bundleChange fetch w w1 ∧ bundleChange fetch w (clearBundle w1)
  end.
Proof.
  pose proof (request_world fetch lang w) as Hw.
  pose proof (request_some fetch lang w) as Hs.
  destruct (request fetch lang w) as [w1 [b|]]; simpl in Hw; subst w1.
  - apply (bundle_replaced fetch w _ (List.length (fetchLog w)) lang).
    + lia.
    + simpl. apply list_lookup_middle. reflexivity.
    + simpl. apply Hs. reflexivity.
  - split; [apply bundle_kept | apply bundle_emptied]; reflexivity.
Qed.

Lemma loadLanguage_en_change w :
  bundleChange fetch w (loadLanguage fetch "en" w).
Proof.
  rewrite loadLanguage_en.
  destruct (alreadyLoaded "en" w); [apply bundle_kept; reflexivity|].
  pose proof (request_change "en" w) as Hc.
  destruct (request fetch "en" w) as [w1 [b|]]; [exact Hc | apply Hc].
Qed.

(** The loader keeps the bundle, empties it, or stores a body it has just
    received. *)
Lemma loadLanguage_change lang w :
  bundleChange fetch w (loadLanguage fetch lang w).
Proof.
  rewrite loadLanguage_body.
  destruct (alreadyLoaded lang w); [apply bundle_kept; reflexivity|].
  pose proof (request_change lang w) as Hc.
  pose proof (request_world fetch lang w) as Hw.
  destruct (request fetch lang w) as [w1 [b|]]; [exact Hc|].
  destruct (decide (lang = "en")); [apply Hc|].
  apply (bundleChange_trans w w1).
  - simpl in Hw. subst w1. exists [lang]. reflexivity.
  - apply loadLanguage_prefix.
  - apply Hc.
  - apply loadLanguage_en_change.
Qed.

Lemma ensureBundle_change w :
  bundleChange fetch w (ensureBundle fetch w)
  ∧ fetchLog w `prefix_of` fetchLog (ensureBundle fetch w).
Proof.
  unfold ensureBundle. destruct (Nat.eqb (keyCount w) 0).
  - split; [apply loadLanguage_change | apply loadLanguage_prefix].
  - split; [apply bundle_kept; reflexivity | reflexivity].
Qed.

Lemma updateContent_change w :
  bundleChange fetch w (updateContent fetch toUpperCase w).1
  ∧ fetchLog w `prefix_of` fetchLog (updateContent fetch toUpperCase w).1.
Proof.
  destruct (updateContent_session fetch toUpperCase w) as (Hs & Hl).
  destruct (ensureBundle_change w) as (Hc & Hp).
  split; [|rewrite Hl; exact Hp].
  apply (bundleChange_trans w (ensureBundle fetch w)); [exact Hp | | exact Hc |].
  - rewrite Hl. reflexivity.
  - apply bundle_kept. rewrite Hs. reflexivity.
Qed.

(** C8. The session holds one bundle, and every operation of the page
    either keeps it, empties it, or replaces it by the body of a request
    issued during that operation, exactly as received: nothing of the
    previous bundle is kept or merged, and no other bundle is stored. *)
Theorem one_bundle_held op w :
  bundleChange fetch w (run fetch toUpperCase op w)
  ∧ fetchLog w `prefix_of` fetchLog (run fetch toUpperCase op w).
Proof.
  destruct op as [lang | | nav | [newLang|]]; cbn [run handle].
  - split; [apply loadLanguage_change | apply loadLanguage_prefix].
  - apply updateContent_change.
  - unfold onDOMContentLoaded.
    match goal with |- context [updateContent _ _ ?w0] =>
      destruct (updateContent_change w0) as (Hc & Hp);
      split; [|exact Hp];
      apply (bundleChange_trans w w0); [reflexivity | exact Hp | | exact Hc]
    end.
    apply bundle_kept. reflexivity.
  - unfold onLanguageClick.
    destruct (updateContent_change (loadLanguage fetch newLang w)) as (Hc & Hp).
    split.
    + apply (bundleChange_trans w (loadLanguage fetch newLang w));
        [apply loadLanguage_prefix | exact Hp | apply loadLanguage_change | exact Hc].
    + etransitivity; [apply loadLanguage_prefix | exact Hp].
  - unfold onModeToggleClick.
    match goal with |- context [updateContent _ _ ?w0] =>
      destruct (updateContent_change w0) as (Hc & Hp);
      split; [|exact Hp];
      apply (bundleChange_trans w w0); [reflexivity | exact Hp | | exact Hc]
    end.
    apply bundle_kept. reflexivity.
Qed.

(** Switching from English to Spanish leaves exactly the Spanish bundle. *)
Example switch_language_replaces :
  let w := loadLanguage netBoth "en" (initialWorld sampleDom) in
  currentTranslations (session w) = sampleEn
  ∧ currentTranslations (session (loadLanguage netBoth "es" w)) = sampleEs.
Proof. split; vm_compute; reflexivity. Qed.

End BundleFacts.

(** ** Markup normalizer *)

Lemma startsDelim_cons_app c x r :
  startsDelim (c :: x ++ star :: r) = startsDelim (c :: x ++ [star]).
Proof. destruct x; reflexivity. Qed.

Lemma startsDelim_true s :
  startsDelim s = true → ∃ r, s = star :: star :: r.
Proof.
  destruct s as [|a [|b r]]; simpl; try discriminate.
  intros H. apply andb_true_iff in H as [Ha Hb].
  apply Ascii.eqb_eq in Ha, Hb. subst. eauto.
Qed.

(** The lazy group stops at the first delimiter. *)
Lemma lazyBody_span x rest :
  closesFirst x = true → oneLine x = true →
  lazyBody (x ++ star :: star :: rest) = Some x.
Proof.
  unfold closesFirst. induction x as [|c x IH]; intros Hd Hl.
  - reflexivity.
  - cbn [delimFree app] in Hd. apply andb_true_iff in Hd as [Hs Hd].
    cbn [oneLine forallb] in Hl. apply andb_true_iff in Hl as [Hc Hl].
    apply negb_true_iff in Hs, Hc.
    change ((c :: x) ++ star :: star :: rest)
      with (c :: x ++ star :: star :: rest).
    cbn [lazyBody]. rewrite startsDelim_cons_app, Hs, Hc.
    fold (oneLine x) in Hl. rewrite (IH Hd Hl). reflexivity.
Qed.

Lemma lazyBody_some s x :
  lazyBody s = Some x →
  ∃ rest, s = x ++ star :: star :: rest
          ∧ closesFirst x = true ∧ oneLine x = true.
Proof.
  unfold closesFirst. revert x. induction s as [|c s IH]; intros x H.
  - discriminate.
  - cbn [lazyBody] in H.
    destruct (startsDelim (c :: s)) eqn:Hs.
    + injection H as <-. apply startsDelim_true in Hs as [r ->].
      exists r. auto.
    + destruct (isLineTerminator c) eqn:Hc; [discriminate|].
      destruct (lazyBody s) as [x'|] eqn:Hb; [|discriminate].
      injection H as <-.
      destruct (IH x' eq_refl) as (rest & -> & Hd & Hl).
      exists rest. split; [reflexivity|]. split.
      * cbn [delimFree app]. rewrite <- startsDelim_cons_app with (r := star :: rest).
        rewrite Hs, Hd. reflexivity.
      * cbn [oneLine forallb]. rewrite Hc. exact Hl.
Qed.

(** The pattern matches at the front of [s] exactly when [s] reads as a
    span, and the group is the text of that span. *)
Lemma matchAt_span s x :
  matchAt s = Some x ↔ ∃ rest, spanAt s x rest.
Proof.
  split.
  - unfold matchAt. destruct (startsDelim s) eqn:Hs; [|discriminate].
    apply startsDelim_true in Hs as [r ->].
    change (drop 2 (star :: star :: r)) with r. intros H.
    apply lazyBody_some in H as (rest & -> & Hd & Hl).
    exists rest. constructor; assumption.
  - intros [rest H]. destruct H as [x rest Hd Hl].
    unfold matchAt. cbn [startsDelim].
    rewrite Ascii.eqb_refl. cbn [andb].
    change (drop 2 (star :: star :: x ++ star :: star :: rest))
      with (x ++ star :: star :: rest).
    apply lazyBody_span; assumption.
Qed.

Lemma spanAt_rest s x rest :
  spanAt s x rest → rest = drop (List.length x + 4) s.
Proof.
  intros [x' rest' _ _].
  replace (List.length x' + 4) with (2 + (List.length x' + 2)) by lia.
  cbn [drop Nat.add].
  replace (x' ++ star :: star :: rest') with ((x' ++ [star; star]) ++ rest')
    by (rewrite <- app_assoc; reflexivity).
  rewrite drop_app_length'; [reflexivity|].
  rewrite length_app. simpl. lia.
Qed.

Lemma spanAt_functional s x rest x' rest' :
  spanAt s x rest → spanAt s x' rest' → x = x' ∧ rest = rest'.
Proof.
  intros H H'.
  assert (Hx : x = x').
  { assert (Hm : matchAt s = Some x) by (apply matchAt_span; eauto).
    assert (Hm' : matchAt s = Some x') by (apply matchAt_span; eauto).
    congruence. }
  subst x'. split; [reflexivity|].
  rewrite (spanAt_rest _ _ _ H), (spanAt_rest _ _ _ H'). reflexivity.
Qed.

(** The characters of a match are skipped. *)
Lemma replaceBold_skip n s : replaceBold n s = replaceBold 0 (drop n s).
Proof.
  revert n. induction s as [|c s IH]; intros [|n]; try reflexivity.
  cbn [replaceBold drop]. apply IH.
Qed.

(** The replacement, one step at a time. *)
Lemma replaceBold_step c s :
  replaceBold 0 (c :: s) =
  match matchAt (c :: s) with
  | Some x =>
      strongOpen ++ x ++ strongClose
        ++ replaceBold 0 (drop (List.length x + 4) (c :: s))
  | None => c :: replaceBold 0 s
  end.
Proof.
  cbn [replaceBold]. destruct (matchAt (c :: s)) as [x|]; [|reflexivity].
  rewrite replaceBold_skip.
  replace (List.length x + 4) with (S (List.length x + 3)) by lia.
  reflexivity.
Qed.

Lemma spanAt_shorter s x rest :
  spanAt s x rest → List.length rest < List.length s.
Proof.
  intros [x' rest' _ _]. simpl. rewrite length_app. simpl. lia.
Qed.

Lemma replaceBold_normalizes s : normalizes s (replaceBold 0 s).
Proof.
  remember (List.length s) as n eqn:Hn.
  revert s Hn. induction n as [n IH] using lt_wf_ind. intros s Hn.
  destruct s as [|c s]; [constructor|].
  rewrite replaceBold_step.
  destruct (matchAt (c :: s)) as [x|] eqn:Hm.
  - apply matchAt_span in Hm as [rest Hspan].
    rewrite <- (spanAt_rest _ _ _ Hspan).
    apply (normalizes_span _ x rest); [exact Hspan|].
    apply (IH (List.length rest)); [|reflexivity].
    subst n. apply spanAt_shorter with (x := x). exact Hspan.
  - apply normalizes_char.
    + intros x rest Hspan.
      assert (matchAt (c :: s) = Some x) by (apply matchAt_span; eauto).
      congruence.
    + apply (IH (List.length s)); [subst n; simpl; lia | reflexivity].
Qed.


(** The test of line 39 changes nothing: the empty text is its own
    replacement. *)
Lemma processMarkdown_chars text :
  list_ascii_of_string (processMarkdown text)
  = replaceBold 0 (list_ascii_of_string text).
Proof.
  unfold processMarkdown. destruct (String.eqb_spec text "") as [->|_].
  - reflexivity.
  - apply list_ascii_of_string_of_list_ascii.
Qed.



(** Non-greedy, no nesting, no escaping. *)
Example processMarkdown_two_spans :
  processMarkdown "**a** and **b**"
  = "<strong>a</strong> and <strong>b</strong>".
Proof. vm_compute. reflexivity. Qed.

Example processMarkdown_no_nesting :
  processMarkdown "**a **b** c**"
  = "<strong>a </strong>b<strong> c</strong>".
Proof. vm_compute. reflexivity. Qed.

Example processMarkdown_no_escape :
  processMarkdown "\**a\**" = "\<strong>a\</strong>".
Proof. vm_compute. reflexivity. Qed.

Example processMarkdown_unclosed :
  processMarkdown "**a" = "**a".
Proof. vm_compute. reflexivity. Qed.

(** *** Texts whose delimiters pair up *)

Lemma chars_app (a b : string) :
  list_ascii_of_string (a ++ b)%string
  = list_ascii_of_string a ++ list_ascii_of_string b.
Proof. induction a as [|c a IH]; [reflexivity|]. simpl. rewrite IH. reflexivity. Qed.

Lemma startsDelim_cons_next c x d r :
  startsDelim (c :: x ++ d :: r) = startsDelim (c :: x ++ [d]).
Proof. destruct x; reflexivity. Qed.

Lemma matchAt_not_delim s : startsDelim s = false → matchAt s = None.
Proof. intros H. unfold matchAt. rewrite H. reflexivity. Qed.

(** Text in which no delimiter starts is copied. *)
Lemma replaceBold_plain pre d r :
  delimFree (pre ++ [d]) = true →
  replaceBold 0 (pre ++ d :: r) = pre ++ replaceBold 0 (d :: r).
Proof.
  induction pre as [|c pre IH]; intros Hd; [reflexivity|].
  cbn [delimFree app] in Hd. apply andb_true_iff in Hd as [Hs Hd].
  apply negb_true_iff in Hs.
  change ((c :: pre) ++ d :: r) with (c :: pre ++ d :: r).
  rewrite replaceBold_step, matchAt_not_delim
    by (rewrite startsDelim_cons_next; exact Hs).
  rewrite (IH Hd). reflexivity.
Qed.

Lemma replaceBold_tail s : delimFree s = true → replaceBold 0 s = s.
Proof.
  induction s as [|c s IH]; intros Hd; [reflexivity|].
  cbn [delimFree] in Hd. apply andb_true_iff in Hd as [Hs Hd].
  apply negb_true_iff in Hs.
  rewrite replaceBold_step, (matchAt_not_delim _ Hs), (IH Hd). reflexivity.
Qed.

Lemma replaceBold_span x rest :
  closesFirst x = true → oneLine x = true →
  replaceBold 0 (star :: star :: x ++ star :: star :: rest)
  = strongOpen ++ x ++ strongClose ++ replaceBold 0 rest.
Proof.
  intros Hd Hl.
  pose proof (span_intro x rest Hd Hl) as Hspan.
  assert (Hm : matchAt (star :: star :: x ++ star :: star :: rest) = Some x)
    by (apply matchAt_span; eauto).
  rewrite replaceBold_step, Hm, <- (spanAt_rest _ _ _ Hspan). reflexivity.
Qed.

Lemma replaceBold_spans spans tail :
  wellDelimited spans tail →
  replaceBold 0 (list_ascii_of_string (boldSource spans tail))
  = list_ascii_of_string (boldMarkup spans tail).
Proof.
  intros [Hspans Htail]. induction Hspans as [|[pre x] spans (Hp & Hx & Hl) _ IH].
  - apply replaceBold_tail. exact Htail.
  - cbn [boldSource boldMarkup fst snd] in *.
    rewrite !chars_app.
    change (list_ascii_of_string "**") with [star; star].
    cbn [app].
    rewrite replaceBold_plain by exact Hp.
    rewrite replaceBold_span by assumption.
    rewrite IH. reflexivity.
Qed.

(** X23. A text made of spans [**x**], each closed by the first delimiter
    after its opening one and on one line, separated by texts in which no
    delimiter starts, is normalized span by span: each span becomes a
    [strong] element and the texts around the spans are kept. *)
Lemma processMarkdown_spans spans tail :
  wellDelimited spans tail →
  processMarkdown (boldSource spans tail) = boldMarkup spans tail.
Proof.
  intros Hw.
  rewrite <- (string_of_list_ascii_of_string (processMarkdown _)).
  rewrite processMarkdown_chars, (replaceBold_spans _ _ Hw).
  apply string_of_list_ascii_of_string.
Qed.

Lemma processMarkdown_spans_witness :
  processMarkdown (boldSource [("Hello ", "big"); (", ", "wide")] " world")
  = "Hello <strong>big</strong>, <strong>wide</strong> world"%string.
Proof.
  apply (processMarkdown_spans [("Hello ", "big"); (", ", "wide")]%string
           " world"%string).
  split; [repeat constructor | reflexivity].
Defined.

(** * Further properties of the code *)

(** ** Translation resolver *)

Lemma t_truthy s key : truthy (t s key) = true.
Proof.
  unfold t, jsOr.
  destruct (truthy (if negb (truthy _) && isFull (currentMode s) then _ else _))
    eqn:E; [exact E | reflexivity].
Qed.

(** X1. Whatever the session and the key, the resolver answers a truthy
    value, never [undefined] and never the empty string: the test of
    line 108 always passes. *)
Theorem t_always_truthy s key :
  truthy (t s key) = true
  ∧ t s key ≠ VUndefined ∧ t s key ≠ VString ""%string.
Proof.
  pose proof (t_truthy s key) as H.
  split; [exact H|]. split; intros E; rewrite E in H; discriminate.
Qed.

(** X2. A key that the map of the current mode holds with a text that is
    not empty resolves to exactly that text, whatever the other map
    holds. *)
Theorem t_present_text s key m text :
  currentTranslations s !! modeName (currentMode s) = Some m →
  m !! key = Some text →
  text ≠ ""%string →
  t s key = VString text.
Proof. apply t_present. Qed.

Lemma t_present_text_witness :
  t {| currentLang := "en"; currentMode := Full; currentTranslations := sampleEn |}
    "title"
  = VString "Hello, **whole** world".
Proof.
  apply (t_present_text _ "title" {[ "title" := "Hello, **whole** world"%string ]});
    [vm_compute; reflexivity | vm_compute; reflexivity | discriminate].
Defined.

(** X3. In full mode, whenever the full map gives nothing truthy for a
    key (there is no full map, the key is not in it, or its text there is
    empty) and the summary map holds the key with a text that is not
    empty, the resolver answers the summary text. *)
Theorem t_full_uses_summary s key m text :
  currentMode s = Full →
  truthy (optGetProp (currentTranslations s !! "full") key) = false →
  currentTranslations s !! "summary" = Some m →
  m !! key = Some text →
  text ≠ ""%string →
  t s key = VString text.
Proof.
  intros Hmode Hfull Hm Hk Hne. unfold t. rewrite Hmode.
  cbn [modeName isFull]. rewrite Hfull, Hm. cbn [negb andb optGetProp].
  rewrite (getProp_own _ _ _ Hk). unfold jsOr.
  rewrite (truthy_VString _ Hne). reflexivity.
Qed.

Lemma t_full_uses_summary_witness :
  t {| currentLang := "en"; currentMode := Full;
       currentTranslations :=
         {[ "summary" := {[ "a" := "Hi"%string ]};
            "full" := {[ "a" := ""%string ]} ]} |} "a"
  = VString "Hi".
Proof.
  apply (t_full_uses_summary _ "a" {[ "a" := "Hi"%string ]});
    [reflexivity | vm_compute; reflexivity | vm_compute; reflexivity
     | vm_compute; reflexivity | discriminate].
Defined.

(** X4. In summary mode the resolver reads the summary map only: two
    sessions in summary mode with the same summary map resolve every key
    alike, whatever their full maps, their other entries and their
    languages. *)
Theorem t_summary_mode_reads_summary_only s s' key :
  currentMode s = Summary →
  currentMode s' = Summary →
  currentTranslations s !! "summary" = currentTranslations s' !! "summary" →
  t s key = t s' key.
Proof.
  intros Hm Hm' Hs. unfold t. rewrite Hm, Hm'. cbn [modeName isFull].
  rewrite Hs, !andb_false_r. reflexivity.
Qed.

Lemma t_summary_mode_reads_summary_only_witness :
  t {| currentLang := "en"; currentMode := Summary;
       currentTranslations := {[ "summary" := {[ "a" := "Hi"%string ]} ]} |} "a"
  = t {| currentLang := "es"; currentMode := Summary;
         currentTranslations :=
           {[ "summary" := {[ "a" := "Hi"%string ]};
              "full" := {[ "a" := "Hello"%string ]} ]} |} "a".
Proof.
  apply t_summary_mode_reads_summary_only;
    [reflexivity | reflexivity | vm_compute; reflexivity].
Defined.

(** ** Bundle loader *)

Section LoaderExtras.

Variable fetch : nat → string → FetchOutcome.

Lemma loadLanguage_en_lang w :
  currentLang (session (loadLanguage fetch "en" w)) = currentLang (session w)
  ∨ currentLang (session (loadLanguage fetch "en" w)) = "en"%string.
Proof.
  rewrite loadLanguage_en.
  destruct (alreadyLoaded "en" w); [auto|].
  pose proof (request_world fetch "en" w) as Hw.
  destruct (request fetch "en" w) as [w1 [b|]]; simpl in Hw; subst w1; simpl; auto.
Qed.

Lemma loadLanguage_stores lang w b :
  alreadyLoaded lang w = false →
  fetch (List.length (fetchLog w)) (bundleUrl lang) = Response true (Some b) →
  loadLanguage fetch lang w
  = {| session := {| currentLang := lang;
                     currentMode := currentMode (session w);
                     currentTranslations := b |};
       document := document w;
       fetchLog := fetchLog w ++ [lang] |}.
Proof.
  intros Hg Hf. rewrite loadLanguage_body, Hg.
  apply request_some in Hf.
  pose proof (request_world fetch lang w) as Hw.
  destruct (request fetch lang w) as [w1 r]. simpl in *. subst w1 r.
  reflexivity.
Qed.

(** X5. When the language asked for is not already loaded and its
    request succeeds, the loader stores the body as the bundle, makes the
    language current and logs the one request; the mode and the document
    stay. *)
Theorem loadLanguage_success lang w b :
  alreadyLoaded lang w = false →
  fetch (List.length (fetchLog w)) (bundleUrl lang) = Response true (Some b) →
  loadLanguage fetch lang w
  = {| session := {| currentLang := lang;
                     currentMode := currentMode (session w);
                     currentTranslations := b |};
       document := document w;
       fetchLog := fetchLog w ++ [lang] |}.
Proof. apply loadLanguage_stores. Qed.

Lemma loadLanguage_lang_cases lang w :
  currentLang (session (loadLanguage fetch lang w)) = currentLang (session w)
  ∨ currentLang (session (loadLanguage fetch lang w)) = lang
  ∨ currentLang (session (loadLanguage fetch lang w)) = "en"%string.
Proof.
  rewrite loadLanguage_body.
  destruct (alreadyLoaded lang w); [auto|].
  pose proof (request_world fetch lang w) as Hw.
  destruct (request fetch lang w) as [w1 [b|]]; simpl in Hw; subst w1;
    [simpl; auto|].
  destruct (decide (lang = "en"%string)); [simpl; auto|].
  match goal with |- context [loadLanguage fetch "en" ?w1] =>
    destruct (loadLanguage_en_lang w1) as [H|H]; rewrite H; simpl; auto end.
Qed.

(** X6. The loader never touches the document nor the mode, and the
    current language afterwards is the one before, the one asked for, or
    ['en']. *)
Theorem loadLanguage_effects lang w :
  document (loadLanguage fetch lang w) = document w
  ∧ currentMode (session (loadLanguage fetch lang w)) = currentMode (session w)
  ∧ (currentLang (session (loadLanguage fetch lang w)) = currentLang (session w)
     ∨ currentLang (session (loadLanguage fetch lang w)) = lang
     ∨ currentLang (session (loadLanguage fetch lang w)) = "en"%string).
Proof.
  split; [apply loadLanguage_document|]. split; [apply loadLanguage_mode|].
  apply loadLanguage_lang_cases.
Qed.

(** X7. A body that is the empty object is stored and its language made
    current, but it does not count as loaded: the guard of line 56 stays
    open and the next call for the same language requests it again. *)
Theorem loadLanguage_empty_body lang w :
  alreadyLoaded lang w = false →
  fetch (List.length (fetchLog w)) (bundleUrl lang) = Response true (Some ∅) →
  currentLang (session (loadLanguage fetch lang w)) = lang
  ∧ bundleLoaded (loadLanguage fetch lang w) = false
  ∧ alreadyLoaded lang (loadLanguage fetch lang w) = false
  ∧ fetchLog (loadLanguage fetch lang w) = fetchLog w ++ [lang].
Proof.
  intros Hg Hf. rewrite (loadLanguage_stores lang w ∅ Hg Hf).
  split; [reflexivity|].
  assert (Hl : bundleLoaded
                 {| session := {| currentLang := lang;
                                  currentMode := currentMode (session w);
                                  currentTranslations := ∅ |};
                    document := document w;
                    fetchLog := fetchLog w ++ [lang] |} = false)
    by (apply bundleLoaded_empty; reflexivity).
  split; [exact Hl|]. split; [|reflexivity].
  unfold alreadyLoaded. rewrite Hl. apply andb_false_r.
Qed.

(** X8. When the request fails and the fallback fails too (or the
    language asked for is ['en'] itself), the bundle held before is
    dropped while the current language and the mode stay as they were. *)
Theorem loadLanguage_failure_keeps_language lang w :
  alreadyLoaded lang w = false →
  failed (fetch (List.length (fetchLog w)) (bundleUrl lang)) = true →
  lang = "en"%string
  ∨ (alreadyLoaded "en" w = false
     ∧ failed (fetch (S (List.length (fetchLog w))) (bundleUrl "en")) = true) →
  session (loadLanguage fetch lang w)
  = {| currentLang := currentLang (session w);
       currentMode := currentMode (session w);
       currentTranslations := ∅ |}.
Proof.
  intros Hg Hf Hfb. rewrite loadLanguage_body, Hg.
  pose proof (request_world fetch lang w) as Hw.
  apply request_none in Hf.
  destruct (request fetch lang w) as [w1 [b|]]; simpl in *; [discriminate|].
  subst w1.
  destruct (decide (lang = "en"%string)) as [E|E]; [reflexivity|].
  destruct Hfb as [?|[Hen Hf2]]; [contradiction|].
  rewrite loadLanguage_en.
  match goal with |- context [alreadyLoaded "en" ?w1] =>
    assert (Hen1 : alreadyLoaded "en" w1 = false) by exact Hen;
    rewrite Hen1;
    assert (Hreq : (request fetch "en" w1).2 = None)
  end.
  { apply request_none. simpl. rewrite length_app. simpl.
    rewrite Nat.add_1_r. exact Hf2. }
  match goal with |- context [request fetch "en" ?w1] =>
    pose proof (request_world fetch "en" w1) as Hw1;
    destruct (request fetch "en" w1) as [w2 r] end.
  simpl in *. subst w2 r. reflexivity.
Qed.

End LoaderExtras.

Lemma loadLanguage_success_witness :
  loadLanguage netBoth "es" (initialWorld sampleDom)
  = {| session := {| currentLang := "es"; currentMode := Summary;
                     currentTranslations := sampleEs |};
       document := sampleDom;
       fetchLog := ["es"%string] |}.
Proof.
  apply (loadLanguage_success netBoth "es" (initialWorld sampleDom) sampleEs);
    vm_compute; reflexivity.
Defined.

Lemma loadLanguage_empty_body_witness :
  let w := loadLanguage netEmptyBody "es" (initialWorld sampleDom) in
  currentLang (session w) = "es"%string
  ∧ bundleLoaded w = false
  ∧ alreadyLoaded "es" w = false
  ∧ fetchLog w = ["es"%string].
Proof.
  apply (loadLanguage_empty_body netEmptyBody "es" (initialWorld sampleDom));
    vm_compute; reflexivity.
Defined.

Lemma loadLanguage_failure_keeps_language_witness :
  session (loadLanguage netDown "fr"
             (loadLanguage netBoth "es" (initialWorld sampleDom)))
  = {| currentLang := "es"; currentMode := Summary; currentTranslations := ∅ |}.
Proof.
  apply (loadLanguage_failure_keeps_language netDown "fr"
           (loadLanguage netBoth "es" (initialWorld sampleDom)));
    [vm_compute; reflexivity | vm_compute; reflexivity | right].
  split; vm_compute; reflexivity.
Defined.

(** ** Content refresher *)

Lemma renderKeyed_app s before rest :
  Forall (λ el : string * string, inherited el.1 = false) before →
  renderKeyed s (before ++ rest)
  = ((renderedElement s <$> before) ++ (renderKeyed s rest).1,
     (renderKeyed s rest).2).
Proof.
  induction 1 as [|[key html] before Hk _ IH].
  - change ([] ++ rest) with rest. destruct (renderKeyed s rest); reflexivity.
  - change (((key, html) :: before) ++ rest) with ((key, html) :: before ++ rest).
    cbn [renderKeyed]. cbn [fst] in Hk.
    destruct (t_plain_string s key Hk) as (text & Ht & Hne).
    rewrite Ht, (truthy_VString _ Hne). cbn [processMarkdownOf].
    rewrite IH. rewrite fmap_cons. unfold renderedElement at 2.
    cbn [fst]. rewrite Ht. reflexivity.
Qed.

Lemma renderKeyed_plain_map s els :
  Forall (λ el : string * string, inherited el.1 = false) els →
  renderKeyed s els = (renderedElement s <$> els, Returned).
Proof.
  intros H. pose proof (renderKeyed_app s els [] H) as Ha.
  rewrite !app_nil_r in Ha. exact Ha.
Qed.

Lemma classAdd_present c l : c ∈ l → classAdd c l = l.
Proof. intros H. unfold classAdd. rewrite bool_decide_eq_true_2 by exact H. reflexivity. Qed.

Lemma classRemove_absent c l : c ∉ l → classRemove c l = l.
Proof.
  intros H. unfold classRemove. induction l as [|x l IH]; [reflexivity|].
  rewrite filter_cons. apply not_elem_of_cons in H as [Hne Hl].
  rewrite decide_True by congruence. rewrite (IH Hl). reflexivity.
Qed.

Lemma hasClass_true c l : hasClass c l = true ↔ c ∈ l.
Proof. apply bool_decide_eq_true. Qed.

Lemma hasClass_false c l : hasClass c l = false ↔ c ∉ l.
Proof. apply bool_decide_eq_false. Qed.

(** Step 3 applied twice is step 3 applied once. *)
Lemma applyVisibility_idempotent m d :
  applyVisibility m (applyVisibility m d) = applyVisibility m d.
Proof.
  unfold applyVisibility.
  destruct (isFull m); unfold setClasses;
    cbn [keyed htmlLang langDisplay modeToggleText fullModeClasses
         modeToggleClasses navAbout navExperience navTechnologies navEducation].
  - rewrite (classRemove_absent "hidden" (classRemove "hidden" _))
      by (apply hasClass_false, hasClass_remove).
    rewrite (classAdd_present "bg-gray-700" (classRemove "bg-dark-card" _))
      by (apply hasClass_true; rewrite hasClass_remove_ne by discriminate;
          apply hasClass_add).
    rewrite (classRemove_absent "bg-dark-card" (classRemove "bg-dark-card" _))
      by (apply hasClass_false, hasClass_remove).
    reflexivity.
  - rewrite (classAdd_present "hidden" (classAdd "hidden" _))
      by (apply hasClass_true, hasClass_add).
    rewrite (classAdd_present "bg-dark-card" (classRemove "bg-gray-700" _))
      by (apply hasClass_true; rewrite hasClass_remove_ne by discriminate;
          apply hasClass_add).
    rewrite (classRemove_absent "bg-gray-700" (classRemove "bg-gray-700" _))
      by (apply hasClass_false, hasClass_remove).
    reflexivity.
Qed.

Lemma renderKeyed_idempotent s els :
  renderKeyed s (renderKeyed s els).1 = renderKeyed s els.
Proof.
  induction els as [|[key html] rest IH]; [reflexivity|].
  cbn [renderKeyed].
  destruct (truthy (t s key)) eqn:Ht.
  - destruct (processMarkdownOf (t s key)) as [h|] eqn:Hp.
    + destruct (renderKeyed s rest) as [rest' c] eqn:Hr.
      cbn [fst renderKeyed] in *. rewrite Ht, Hp, IH. reflexivity.
    + cbn [fst renderKeyed]. rewrite Ht, Hp. reflexivity.
  - destruct (renderKeyed s rest) as [rest' c] eqn:Hr.
    cbn [fst renderKeyed] in *. rewrite Ht, IH. reflexivity.
Qed.

Section RefresherExtras.

Variable fetch : nat → string → FetchOutcome.
Variable toUpperCase : string → string.

Lemma renderControls_keyed s base d :
  keyed (renderControls toUpperCase s base d) = keyed d.
Proof.
  unfold renderControls, applyVisibility.
  destruct (isFull (currentMode s)); reflexivity.
Qed.

Lemma renderControls_setKeyed s base d els :
  setKeyed (renderControls toUpperCase s base d) els
  = renderControls toUpperCase s base (setKeyed d els).
Proof.
  unfold renderControls, applyVisibility.
  destruct (isFull (currentMode s)); reflexivity.
Qed.

Lemma renderControls_idempotent s base d :
  renderControls toUpperCase s base (renderControls toUpperCase s base d)
  = renderControls toUpperCase s base d.
Proof.
  unfold renderControls, applyVisibility.
  destruct (isFull (currentMode s)); unfold setClasses;
    cbn [keyed htmlLang langDisplay modeToggleText fullModeClasses
         modeToggleClasses navAbout navExperience navTechnologies navEducation].
  - rewrite (classRemove_absent "hidden" (classRemove "hidden" _))
      by (apply hasClass_false, hasClass_remove).
    rewrite (classAdd_present "bg-gray-700" (classRemove "bg-dark-card" _))
      by (apply hasClass_true; rewrite hasClass_remove_ne by discriminate;
          apply hasClass_add).
    rewrite (classRemove_absent "bg-dark-card" (classRemove "bg-dark-card" _))
      by (apply hasClass_false, hasClass_remove).
    reflexivity.
  - rewrite (classAdd_present "hidden" (classAdd "hidden" _))
      by (apply hasClass_true, hasClass_add).
    rewrite (classAdd_present "bg-dark-card" (classRemove "bg-gray-700" _))
      by (apply hasClass_true; rewrite hasClass_remove_ne by discriminate;
          apply hasClass_add).
    rewrite (classRemove_absent "bg-gray-700" (classRemove "bg-gray-700" _))
      by (apply hasClass_false, hasClass_remove).
    reflexivity.
Qed.

(** Refreshing what was just refreshed changes nothing. *)
Lemma render_idempotent w :
  render toUpperCase (render toUpperCase w).1 = render toUpperCase w.
Proof.
  unfold render at 2 3.
  pose proof (renderKeyed_idempotent (session w) (keyed (document w))) as Hi.
  destruct (renderKeyed (session w) (keyed (document w))) as [els c] eqn:Hr.
  cbn [fst] in Hi.
  destruct c.
  - destruct (currentTranslations (session w) !! "summary") as [base|] eqn:Hb.
    + cbn [fst]. unfold render.
      cbn [withDocument session document].
      rewrite renderControls_keyed. cbn [setKeyed keyed].
      rewrite Hi, Hb. rewrite renderControls_setKeyed.
      cbn [setKeyed keyed htmlLang langDisplay modeToggleText fullModeClasses
           modeToggleClasses navAbout navExperience navTechnologies navEducation].
      rewrite renderControls_idempotent. reflexivity.
    + cbn [fst]. unfold render.
      cbn [withDocument session document setKeyed keyed].
      rewrite Hi, Hb. reflexivity.
  - cbn [fst]. unfold render.
    cbn [withDocument session document setKeyed keyed].
    rewrite Hi. reflexivity.
Qed.

(** X9. With a bundle loaded, a refresh issues no request and leaves the
    session (language, mode and bundle) as it was. *)
Theorem updateContent_loaded_keeps_session w :
  bundleLoaded w = true →
  session (updateContent fetch toUpperCase w).1 = session w
  ∧ fetchLog (updateContent fetch toUpperCase w).1 = fetchLog w.
Proof.
  intros Hl. rewrite (updateContent_loaded fetch toUpperCase w Hl).
  destruct (render_frame toUpperCase w) as (Hs & Hlog & _). auto.
Qed.

(** X10. With a bundle loaded that has a summary map, and keys that are
    translation keys, a refresh returns and writes every slot: each keyed
    element receives the normalized text its key resolves to, the
    language attribute the ['html-lang'] text of the summary map or, when
    that is missing or empty, the current language, the language display
    the current language in upper case, the toggle and the four
    navigation links their resolved texts, and the classes are those of
    the mode. *)
Theorem updateContent_writes w base :
  bundleLoaded w = true →
  plainKeys (document w) →
  currentTranslations (session w) !! "summary" = Some base →
  let s := session w in
  let d := document (updateContent fetch toUpperCase w).1 in
  (updateContent fetch toUpperCase w).2 = Returned
  ∧ keyed d = renderedElement s <$> keyed (document w)
  ∧ htmlLang d = strOr (default ""%string (base !! "html-lang")) (currentLang s)
  ∧ langDisplay d = toUpperCase (currentLang s)
  ∧ modeToggleText d = textOf (t s "mode-toggle-text")
  ∧ navAbout d = textOf (t s "nav-about")
  ∧ navExperience d = textOf (t s "nav-experience")
  ∧ navTechnologies d = textOf (t s "nav-technologies")
  ∧ navEducation d = textOf (t s "nav-education")
  ∧ visibility d = visibilityFor (currentMode s).
Proof.
  intros Hl Hp Hb s d. subst s d.
  rewrite (updateContent_loaded fetch toUpperCase w Hl).
  pose proof (render_visibility toUpperCase w) as Hv.
  rewrite (render_returns toUpperCase w Hp), Hb in Hv.
  unfold render in *. rewrite (renderKeyed_plain_map _ _ Hp) in *. rewrite Hb in *.
  cbn [fst snd withDocument document] in *.
  split; [reflexivity|]. split; [apply renderControls_keyed|].
  split.
  { unfold renderControls, applyVisibility.
    assert (Hh : textOf (jsOr (getProp base "html-lang")
                              (VString (currentLang (session w))))
                 = strOr (default ""%string (base !! "html-lang"))
                         (currentLang (session w))).
    { unfold getProp, jsOr, strOr.
      destruct (base !! "html-lang") as [l|]; simpl; [|reflexivity].
      destruct (String.eqb l ""); reflexivity. }
    destruct (isFull (currentMode (session w))); exact Hh. }
  unfold renderControls, applyVisibility in *.
  destruct (isFull (currentMode (session w))); repeat split; exact Hv.
Qed.


(** X12. A keyed element whose key does not resolve to a string stops
    the refresh: the elements before it are rewritten, the element itself,
    the elements after it and every other slot are left as they were,
    and the refresh throws. *)
Theorem updateContent_stops_at_non_string w before key html after :
  bundleLoaded w = true →
  keyed (document w) = before ++ (key, html) :: after →
  Forall (λ el : string * string, inherited el.1 = false) before →
  isString (t (session w) key) = false →
  updateContent fetch toUpperCase w
  = (withDocument w
       (setKeyed (document w)
          ((renderedElement (session w) <$> before) ++ (key, html) :: after)),
     Threw).
Proof.
  intros Hl Hk Hp Hns.
  rewrite (updateContent_loaded fetch toUpperCase w Hl).
  unfold render. rewrite Hk, (renderKeyed_app _ _ _ Hp).
  cbn [renderKeyed]. rewrite t_truthy.
  destruct (t (session w) key) as [|text|name] eqn:Ht; try discriminate.
  - pose proof (t_truthy (session w) key) as Htr. rewrite Ht in Htr. discriminate.
  - reflexivity.
Qed.

(** X13. Once a refresh leaves a bundle loaded, refreshing again at once
    changes nothing: same world and same completion, with no request. *)
Theorem updateContent_idempotent w :
  bundleLoaded (updateContent fetch toUpperCase w).1 = true →
  updateContent fetch toUpperCase (updateContent fetch toUpperCase w).1
  = updateContent fetch toUpperCase w.
Proof.
  intros Hl. rewrite (updateContent_loaded fetch toUpperCase _ Hl).
  unfold updateContent in *.
  destruct (Nat.eqb (keyCount (ensureBundle fetch w)) 0) eqn:Hz.
  - cbn [fst] in Hl. rewrite bundleLoaded_keyCount, Hz in Hl. discriminate.
  - apply render_idempotent.
Qed.

(** X14. A refresh touches no class but [hidden] on the full-mode
    container and [bg-gray-700] and [bg-dark-card] on the toggle button:
    every other class is present afterwards exactly when it was before. *)
Theorem updateContent_other_classes w c :
  (c ≠ "hidden"%string →
   hasClass c (fullModeClasses (document (updateContent fetch toUpperCase w).1))
   = hasClass c (fullModeClasses (document w)))
  ∧ (c ≠ "bg-gray-700"%string → c ≠ "bg-dark-card"%string →
     hasClass c (modeToggleClasses (document (updateContent fetch toUpperCase w).1))
     = hasClass c (modeToggleClasses (document w))).
Proof.
  unfold updateContent.
  destruct (ensureBundle_frame fetch w) as (Hd & _).
  destruct (Nat.eqb (keyCount (ensureBundle fetch w)) 0);
    [cbn [fst]; rewrite Hd; auto|].
  rewrite <- Hd. generalize (ensureBundle fetch w). clear Hd. intros w1.
  unfold render.
  destruct (renderKeyed (session w1) (keyed (document w1))) as [els r].
  destruct r; [|split; reflexivity].
  destruct (currentTranslations (session w1) !! "summary"); [|split; reflexivity].
  unfold renderControls, applyVisibility.
  destruct (isFull (currentMode (session w1))); cbn; split.
  - intros H. apply hasClass_remove_ne. exact H.
  - intros H1 H2. rewrite hasClass_remove_ne, hasClass_add_ne by assumption.
    reflexivity.
  - intros H. apply hasClass_add_ne. exact H.
  - intros H1 H2. rewrite hasClass_remove_ne, hasClass_add_ne by assumption.
    reflexivity.
Qed.

(** X15. The mode changes on clicks of the mode toggle and only there: a
    click on the toggle flips it whatever the network and the refresh do,
    and a click on a language link leaves it. *)
Theorem handle_mode e w :
  currentMode (session (handle fetch toUpperCase e w))
  = match e with
    | ModeToggleClick => flipMode (currentMode (session w))
    | LanguageClick _ => currentMode (session w)
    end.
Proof.
  destruct e as [newLang|]; cbn [handle].
  - unfold onLanguageClick.
    destruct (updateContent_session fetch toUpperCase
                (loadLanguage fetch newLang w)) as (Hs & _).
    rewrite Hs.
    destruct (ensureBundle_frame fetch (loadLanguage fetch newLang w)) as (_ & Hm).
    rewrite Hm. apply loadLanguage_mode.
  - unfold onModeToggleClick.
    match goal with |- context [updateContent _ _ ?w0] =>
      destruct (updateContent_session fetch toUpperCase w0) as (Hs & _);
      rewrite Hs;
      destruct (ensureBundle_frame fetch w0) as (_ & Hm); rewrite Hm
    end.
    reflexivity.
Qed.

End RefresherExtras.

Lemma updateContent_loaded_keeps_session_witness :
  let w := loadLanguage netBoth "es" (initialWorld sampleDom) in
  session (updateContent netDown id w).1 = session w
  ∧ fetchLog (updateContent netDown id w).1 = fetchLog w.
Proof.
  apply (updateContent_loaded_keeps_session netDown id). vm_compute. reflexivity.
Defined.

Lemma updateContent_writes_witness :
  let w := loadLanguage netBoth "es" (initialWorld sampleDom) in
  let d := document (updateContent netBoth id w).1 in
  keyed d = [("title", "Hola <strong>mundo</strong>")]%string
  ∧ htmlLang d = "es"%string
  ∧ visibility d = (true, false, true).
Proof.
  intros w d.
  destruct (updateContent_writes netBoth id w
              {[ "title" := "Hola **mundo**"; "html-lang" := "es" ]}%string)
    as (_ & Hk & Hh & _ & _ & _ & _ & _ & _ & Hv).
  - vm_compute. reflexivity.
  - repeat constructor.
  - vm_compute. reflexivity.
  - split; [exact Hk|]. split; [exact Hh | exact Hv].
Defined.


Lemma updateContent_stops_at_non_string_witness :
  let w := loadLanguage netBoth "en" (initialWorld sampleDomInherited) in
  (updateContent netBoth id w).2 = Threw
  ∧ keyed (document (updateContent netBoth id w).1)
    = [("title", "Hello <strong>world</strong>"); ("toString", "Text");
       ("title", "Again")]%string.
Proof.
  intros w.
  rewrite (updateContent_stops_at_non_string netBoth id w
             [("title", "Title")]%string "toString" "Text"
             [("title", "Again")]%string);
    [ | vm_compute; reflexivity | reflexivity | repeat constructor
      | vm_compute; reflexivity].
  split; [reflexivity | vm_compute; reflexivity].
Defined.

Lemma updateContent_idempotent_witness :
  let w := initialWorld sampleDom in
  updateContent netBoth id (updateContent netBoth id w).1
  = updateContent netBoth id w.
Proof.
  apply (updateContent_idempotent netBoth id). vm_compute. reflexivity.
Defined.

Lemma updateContent_other_classes_witness :
  let w := initialWorld sampleDom in
  hasClass "section" (fullModeClasses (document (updateContent netBoth id w).1))
  = true
  ∧ hasClass "btn" (modeToggleClasses (document (updateContent netBoth id w).1))
    = true.
Proof.
  intros w.
  destruct (updateContent_other_classes netBoth id w "section") as (Hf & _).
  destruct (updateContent_other_classes netBoth id w "btn") as (_ & Hb).
  split.
  - rewrite Hf by discriminate. reflexivity.
  - rewrite Hb by discriminate. reflexivity.
Defined.

(** ** Page load *)

Lemma beforeDash_no_dash s : "-"%char ∉ list_ascii_of_string (beforeDash s).
Proof.
  induction s as [|c s IH]; simpl.
  - apply not_elem_of_nil.
  - destruct (Ascii.eqb_spec c "-"%char) as [E|E]; simpl.
    + apply not_elem_of_nil.
    + apply not_elem_of_cons. split; [congruence | exact IH].
Qed.

Lemma beforeDash_prefix s : ∃ rest, s = (beforeDash s ++ rest)%string.
Proof.
  induction s as [|c s [rest IH]]; simpl.
  - exists ""%string. reflexivity.
  - destruct (Ascii.eqb c "-"%char).
    + eexists. reflexivity.
    + exists rest.
      change (String c s = String c (beforeDash s ++ rest)%string).
      f_equal. exact IH.
Qed.

(** X16. The language chosen at page load (line 153) is never empty and
    holds no dash: it is the text of [navigator.language] before its
    first dash, or ['en'] when that text is empty. *)
Theorem initial_language navigatorLanguage :
  let l := strOr (beforeDash navigatorLanguage) "en" in
  l ≠ ""%string
  ∧ ("-"%char ∉ list_ascii_of_string l)
  ∧ ((beforeDash navigatorLanguage = ""%string ∧ l = "en"%string)
     ∨ ∃ rest, navigatorLanguage = (l ++ rest)%string).
Proof.
  intros l. subst l. unfold strOr.
  destruct (String.eqb_spec (beforeDash navigatorLanguage) "") as [E|E].
  - split; [discriminate|]. split; [|left; auto].
    vm_compute. intros H. repeat (apply elem_of_cons in H as [H|H]; [discriminate|]).
    inversion H.
  - split; [exact E|]. split; [apply beforeDash_no_dash|].
    right. apply beforeDash_prefix.
Qed.

Section PageExtras.

Variable fetch : nat → string → FetchOutcome.
Variable toUpperCase : string → string.

(** X17. At page load the first request is always for the language of
    the browser; the only other request a page load can issue is one for
    ['en'], after the first. Afterwards the current language is the
    language of the browser or ['en']. *)
Theorem page_load_requests navigatorLanguage d0 :
  let l := strOr (beforeDash navigatorLanguage) "en" in
  let w := (onDOMContentLoaded fetch toUpperCase navigatorLanguage
              (initialWorld d0)).1 in
  (fetchLog w = [l] ∨ (l ≠ "en"%string ∧ fetchLog w = [l; "en"%string]))
  ∧ (currentLang (session w) = l ∨ currentLang (session w) = "en"%string).
Proof.
  intros l w. subst w. unfold onDOMContentLoaded. fold l.
  match goal with |- context [updateContent _ _ ?x] => set (w0 := x) end.
  destruct (updateContent_session fetch toUpperCase w0) as (Hs & Hl).
  rewrite Hs, Hl.
  assert (He : ensureBundle fetch w0 = loadLanguage fetch l w0) by reflexivity.
  rewrite He. split.
  - rewrite loadLanguage_body.
    assert (Hg : alreadyLoaded l w0 = false).
    { unfold alreadyLoaded. rewrite (bundleLoaded_empty w0) by reflexivity.
      apply andb_false_r. }
    rewrite Hg.
    pose proof (request_world fetch l w0) as Hw.
    destruct (request fetch l w0) as [w1 [b|]]; simpl in Hw; subst w1;
      [left; reflexivity|].
    destruct (decide (l = "en"%string)) as [E|E]; [left; reflexivity|].
    match goal with |- context [loadLanguage fetch "en" ?w1] =>
      destruct (loadLanguage_en_frame fetch w1) as (_ & _ & [H|H]) end.
    + exfalso. revert H. rewrite loadLanguage_en.
      match goal with |- context [alreadyLoaded "en" ?w1] =>
        assert (Hg1 : alreadyLoaded "en" w1 = false)
          by (unfold alreadyLoaded; rewrite (bundleLoaded_empty w1) by reflexivity;
              apply andb_false_r);
        rewrite Hg1;
        pose proof (request_world fetch "en" w1) as Hw1;
        destruct (request fetch "en" w1) as [w2 [b|]]; simpl in Hw1; subst w2
      end; simpl; intros H; apply (f_equal List.length) in H; simpl in H; lia.
    + right. split; [exact E | exact H].
  - destruct (loadLanguage_lang_cases fetch l w0) as [H|[H|H]]; auto.
Qed.

Lemma served_same_session w w' :
  session w' = session w →
  fetchLog w `prefix_of` fetchLog w' →
  served fetch w → served fetch w'.
Proof.
  intros Hs [more Hl] Hv Hb. unfold served, bundleLoaded, keyCount in *.
  rewrite Hs in *. destruct (Hv Hb) as (i & Hi & Hf).
  exists i. split; [|exact Hf]. rewrite Hl. apply lookup_app_l_Some. exact Hi.
Qed.

Lemma request_served lang w :
  served fetch w →
  match request fetch lang w with
  | (w1, Some b) => served fetch (setBundle lang b w1)
  | (w1, None) => served fetch w1 ∧ served fetch (clearBundle w1)
  end.
Proof.
  intros Hv.
  pose proof (request_world fetch lang w) as Hw.
  pose proof (request_some fetch lang w) as Hs.
  destruct (request fetch lang w) as [w1 [b|]]; simpl in Hw; subst w1.
  - intros _. exists (List.length (fetchLog w)). simpl. split.
    + apply list_lookup_middle. reflexivity.
    + apply Hs. reflexivity.
  - split.
    + apply (served_same_session w); [reflexivity | exists [lang]; reflexivity | exact Hv].
    + intros Hb. rewrite bundleLoaded_empty in Hb by reflexivity. discriminate.
Qed.

Lemma loadLanguage_en_served w :
  served fetch w → served fetch (loadLanguage fetch "en" w).
Proof.
  intros Hv. rewrite loadLanguage_en.
  destruct (alreadyLoaded "en" w); [exact Hv|].
  pose proof (request_served "en" w Hv) as Hr.
  destruct (request fetch "en" w) as [w1 [b|]]; [exact Hr | apply Hr].
Qed.

Lemma loadLanguage_served lang w :
  served fetch w → served fetch (loadLanguage fetch lang w).
Proof.
  intros Hv. rewrite loadLanguage_body.
  destruct (alreadyLoaded lang w); [exact Hv|].
  pose proof (request_served lang w Hv) as Hr.
  destruct (request fetch lang w) as [w1 [b|]]; [exact Hr|].
  destruct (decide (lang = "en"%string)); [apply Hr|].
  apply loadLanguage_en_served, Hr.
Qed.

Lemma updateContent_served w :
  served fetch w → served fetch (updateContent fetch toUpperCase w).1.
Proof.
  intros Hv.
  destruct (updateContent_session fetch toUpperCase w) as (Hs & Hl).
  apply (served_same_session (ensureBundle fetch w));
    [exact Hs | rewrite Hl; reflexivity|].
  unfold ensureBundle. destruct (Nat.eqb (keyCount w) 0); [|exact Hv].
  apply loadLanguage_served, Hv.
Qed.

(** X18. In every world the page can reach, a bundle that is held was
    served for the current language: the log holds a request for
    [currentLang] whose response was this very bundle. The language and
    the bundle never drift apart. *)
Theorem reachable_served d0 w :
  reachable fetch toUpperCase d0 w → served fetch w.
Proof.
  induction 1 as [nav w Hload | e w Hr IH].
  - unfold onDOMContentLoaded in Hload.
    match type of Hload with updateContent _ _ ?w0 = _ =>
      pose proof (updateContent_served w0) as Hs end.
    rewrite Hload in Hs. apply Hs.
    intros Hb. rewrite bundleLoaded_empty in Hb by reflexivity. discriminate.
  - destruct e as [newLang|]; cbn [handle].
    + apply updateContent_served, loadLanguage_served, IH.
    + apply updateContent_served.
      intros Hb. destruct (IH Hb) as (i & Hi & Hf). exists i. auto.
Qed.

(** X19. In every world the page can reach from a document whose keys
    are translation keys, whenever a bundle with a summary map is held
    the classes agree with the mode: [hidden] is on the full-mode
    container exactly in summary mode, [bg-gray-700] on the toggle button
    exactly in full mode and [bg-dark-card] exactly in summary mode. *)
Theorem reachable_visibility d0 w :
  plainKeys d0 →
  reachable fetch toUpperCase d0 w →
  bundleLoaded w = true →
  is_Some (currentTranslations (session w) !! "summary") →
  visibility (document w)
  = (negb (isFull (currentMode (session w))),
     isFull (currentMode (session w)),
     negb (isFull (currentMode (session w)))).
Proof.
  intros Hp Hr. apply (reachable_consistent fetch toUpperCase d0 w Hp Hr).
Qed.

End PageExtras.

Lemma reachable_served_witness :
  let w := handle netBoth id (LanguageClick "fr")
             (onDOMContentLoaded netBoth id "es-ES" (initialWorld sampleDom)).1 in
  fetchLog w !! 2%nat = Some (currentLang (session w))
  ∧ served netBoth w.
Proof.
  intros w. split; [vm_compute; reflexivity|].
  apply (reachable_served netBoth id sampleDom).
  apply reachable_event.
  apply (reachable_load netBoth id sampleDom "es-ES"). vm_compute. reflexivity.
Defined.

Lemma reachable_visibility_witness :
  let w := handle netBoth id ModeToggleClick
             (onDOMContentLoaded netBoth id "es-ES" (initialWorld sampleDom)).1 in
  visibility (document w) = (false, true, false).
Proof.
  intros w.
  apply (reachable_visibility netBoth id sampleDom w).
  - repeat constructor.
  - apply reachable_event.
    apply (reachable_load netBoth id sampleDom "es-ES"). vm_compute. reflexivity.
  - vm_compute. reflexivity.
  - vm_compute. eauto.
Defined.

(** ** Navigation highlighting *)

Lemma removeActive_same l : sameButActive l (removeActive l).
Proof.
  split; [reflexivity|]. intros c Hc. simpl. apply hasClass_remove_ne. exact Hc.
Qed.

Lemma addActive_same l : sameButActive l (addActive l).
Proof.
  split; [reflexivity|]. intros c Hc. simpl. apply hasClass_add_ne. exact Hc.
Qed.

Lemma sameButActive_refl l : sameButActive l l.
Proof. split; [reflexivity | auto]. Qed.

Lemma sameButActive_trans l1 l2 l3 :
  sameButActive l1 l2 → sameButActive l2 l3 → sameButActive l1 l3.
Proof.
  intros [H1 C1] [H2 C2]. split; [congruence|].
  intros c Hc. rewrite (C2 c Hc). apply C1, Hc.
Qed.

Lemma isActive_removeActive l : isActive (removeActive l) = false.
Proof. apply hasClass_remove. Qed.

Lemma isActive_addActive l : isActive (addActive l) = true.
Proof. apply hasClass_add. Qed.

(** Which link the selector finds depends on the [href]s only. *)
Lemma findLink_same id links links' :
  Forall2 sameButActive links links' →
  fst <$> findLink id links' = fst <$> findLink id links.
Proof.
  unfold findLink. induction 1 as [|l l' links links' [Hh _] _ IH];
    [reflexivity|].
  cbn [list_find]. rewrite Hh.
  destruct (decide (href l = ("#" ++ id)%string)); [reflexivity|].
  destruct (list_find _ links') as [[i x]|], (list_find _ links) as [[j y]|];
    simpl in *; congruence.
Qed.

(** One entry whose section has a link. *)
Lemma observeEntry_matched entry links i x :
  plainId (targetId entry) = true →
  findLink (targetId entry) links = Some (i, x) →
  ∃ links',
    observeEntry entry links = Some links'
    ∧ Forall2 sameButActive links links'
    ∧ ∀ j l', links' !! j = Some l' →
        isActive l' = isIntersecting entry && bool_decide (j = i).
Proof.
  intros Hp Hf. unfold observeEntry. rewrite Hp, Hf.
  assert (Hc : Forall2 sameButActive links (removeActive <$> links)).
  { apply Forall2_fmap_r, Forall_Forall2_diag, Forall_forall.
    intros l _. apply removeActive_same. }
  destruct (isIntersecting entry); eexists; (split; [reflexivity|]); split.
  - apply Forall2_lookup. intros j.
    destruct (decide (j = i)) as [->|Hne].
    + rewrite list_lookup_alter_eq, list_lookup_fmap.
      destruct (links !! i) as [l|]; simpl; constructor.
      apply (sameButActive_trans _ (removeActive l));
        [apply removeActive_same | apply addActive_same].
    + rewrite list_lookup_alter_ne by congruence. rewrite list_lookup_fmap.
      destruct (links !! j) as [l|]; simpl; constructor.
      apply removeActive_same.
  - intros j l' Hl. destruct (decide (j = i)) as [->|Hne].
    + rewrite list_lookup_alter_eq, list_lookup_fmap in Hl.
      destruct (links !! i) as [l|]; simpl in Hl; [|discriminate].
      injection Hl as <-. rewrite isActive_addActive.
      rewrite bool_decide_eq_true_2 by reflexivity. reflexivity.
    + rewrite list_lookup_alter_ne, list_lookup_fmap in Hl by congruence.
      destruct (links !! j) as [l|]; simpl in Hl; [|discriminate].
      injection Hl as <-. rewrite isActive_removeActive.
      rewrite bool_decide_eq_false_2 by exact Hne. reflexivity.
  - exact Hc.
  - intros j l' Hl. rewrite list_lookup_fmap in Hl.
    destruct (links !! j) as [l|]; simpl in Hl; [|discriminate].
    injection Hl as <-. apply isActive_removeActive.
Qed.

Lemma observeEntry_same entry links :
  plainId (targetId entry) = true →
  ∃ links', observeEntry entry links = Some links'
            ∧ Forall2 sameButActive links links'.
Proof.
  intros Hp.
  destruct (findLink (targetId entry) links) as [[i x]|] eqn:Hf.
  - destruct (observeEntry_matched entry links i x Hp Hf) as (links' & H & Hs & _).
    eauto.
  - exists links. unfold observeEntry. rewrite Hp, Hf.
    split; [reflexivity|].
    apply Forall_Forall2_diag, Forall_forall. intros l _. apply sameButActive_refl.
Qed.

Lemma Forall2_sameButActive_trans l1 l2 l3 :
  Forall2 sameButActive l1 l2 → Forall2 sameButActive l2 l3 →
  Forall2 sameButActive l1 l3.
Proof.
  intros H. revert l3. induction H as [|a b l1 l2 Hab _ IH]; intros l3 H3.
  - inversion H3. constructor.
  - inversion H3 as [|b' c l2' l3' Hbc Hrest]; subst.
    constructor; [exact (sameButActive_trans _ _ _ Hab Hbc) | apply IH, Hrest].
Qed.

Lemma observerCallback_app a b links :
  observerCallback (a ++ b) links
  = observerCallback a links ≫= observerCallback b.
Proof.
  revert links. induction a as [|e a IH]; intros links; [reflexivity|].
  change ((e :: a) ++ b) with (e :: a ++ b). cbn [observerCallback].
  destruct (observeEntry e links); [apply IH | reflexivity].
Qed.

(** Entries whose sections have no link change nothing. *)
Lemma observerCallback_unmatched entries links :
  Forall (λ e, plainId (targetId e) = true
               ∧ findLink (targetId e) links = None) entries →
  observerCallback entries links = Some links.
Proof.
  induction 1 as [|e entries [Hp Hf] _ IH]; [reflexivity|].
  cbn [observerCallback]. unfold observeEntry. rewrite Hp, Hf. exact IH.
Qed.

Lemma observerCallback_same entries links :
  Forall (λ e, plainId (targetId e) = true) entries →
  ∃ links', observerCallback entries links = Some links'
            ∧ Forall2 sameButActive links links'.
Proof.
  intros H. revert links. induction H as [|e entries Hp _ IH]; intros links.
  - exists links. split; [reflexivity|].
    apply Forall_Forall2_diag, Forall_forall. intros l _. apply sameButActive_refl.
  - destruct (observeEntry_same e links Hp) as (links1 & H1 & S1).
    destruct (IH links1) as (links2 & H2 & S2).
    exists links2. cbn [observerCallback]. rewrite H1.
    split; [exact H2 | exact (Forall2_sameButActive_trans _ _ _ S1 S2)].
Qed.

(** X20. Whatever the entries, as long as their ids need no escaping,
    the callback returns and changes nothing but the [active] class: the
    links are as many as before, in the same order, with the same [href]
    and with every other class present exactly when it was. *)
Theorem observerCallback_only_active entries links :
  Forall (λ e, plainId (targetId e) = true) entries →
  ∃ links', observerCallback entries links = Some links'
            ∧ Forall2 sameButActive links links'.
Proof. apply observerCallback_same. Qed.

(** X21. The last entry of a batch whose section has a link decides the
    highlight: afterwards no link is active except the link of that
    section, and that one is active exactly when the entry intersects.
    When a section leaves the viewport the highlight is cleared, also
    when another section intersects. *)
Theorem observerCallback_last_match before entry after links i x :
  Forall (λ e, plainId (targetId e) = true) before →
  plainId (targetId entry) = true →
  findLink (targetId entry) links = Some (i, x) →
  Forall (λ e, plainId (targetId e) = true
               ∧ findLink (targetId e) links = None) after →
  ∃ links',
    observerCallback (before ++ entry :: after) links = Some links'
    ∧ ∀ j l', links' !! j = Some l' →
        isActive l' = isIntersecting entry && bool_decide (j = i).
Proof.
  intros Hb Hp Hf Ha.
  destruct (observerCallback_same before links Hb) as (links1 & H1 & S1).
  assert (Hf1 : ∃ x1, findLink (targetId entry) links1 = Some (i, x1)).
  { pose proof (findLink_same (targetId entry) _ _ S1) as Hs. rewrite Hf in Hs.
    destruct (findLink (targetId entry) links1) as [[i1 x1]|]; simpl in Hs;
      [|discriminate].
    injection Hs as ->. eauto. }
  destruct Hf1 as (x1 & Hf1).
  destruct (observeEntry_matched entry links1 i x1 Hp Hf1) as (links2 & H2 & S2 & A2).
  exists links2. split; [|exact A2].
  rewrite observerCallback_app, H1. cbn [mbind option_bind observerCallback].
  rewrite H2. apply observerCallback_unmatched.
  eapply Forall_impl; [exact Ha|]. intros e [Hpe Hfe]. split; [exact Hpe|].
  pose proof (findLink_same (targetId e) _ _
                (Forall2_sameButActive_trans _ _ _ S1 S2)) as Hs.
  rewrite Hfe in Hs.
  destruct (findLink (targetId e) links2); [discriminate | reflexivity].
Qed.

Lemma observerCallback_only_active_witness :
  ∃ links',
    observerCallback [ {| targetId := "experience"; isIntersecting := true |};
                       {| targetId := "contact"; isIntersecting := true |} ]
                     sampleNav = Some links'
    ∧ Forall2 sameButActive sampleNav links'.
Proof.
  apply observerCallback_only_active. repeat constructor.
Defined.

Lemma observerCallback_last_match_witness :
  ∃ links',
    observerCallback [ {| targetId := "about"; isIntersecting := true |};
                       {| targetId := "experience"; isIntersecting := false |};
                       {| targetId := "contact"; isIntersecting := true |} ]
                     sampleNav = Some links'
    ∧ ∀ j l', links' !! j = Some l' →
        isActive l' = false && bool_decide (j = 1).
Proof.
  apply (observerCallback_last_match
           [ {| targetId := "about"; isIntersecting := true |} ]
           {| targetId := "experience"; isIntersecting := false |}
           [ {| targetId := "contact"; isIntersecting := true |} ]
           sampleNav 1
           {| href := "#experience"; linkClasses := ["nav-link"%string] |}).
  - repeat constructor.
  - reflexivity.
  - vm_compute. reflexivity.
  - repeat constructor.
Defined.

(** ** Markup normalizer, applied again *)

Lemma matchFree_cons_plain c r :
  c ≠ star → matchFree r → matchFree (c :: r).
Proof.
  intros Hc Hr. split; [|exact Hr]. apply matchAt_not_delim.
  destruct r as [|b r]; [reflexivity|]. simpl.
  destruct (Ascii.eqb_spec c star); [contradiction | reflexivity].
Qed.

Lemma startsDelim_next_plain c x d r :
  d ≠ star →
  startsDelim (c :: x ++ [star]) = false →
  startsDelim (c :: x ++ d :: r) = false.
Proof.
  intros Hd. destruct x as [|b x]; [|auto]. cbn [app startsDelim].
  destruct (Ascii.eqb c star); [|reflexivity].
  rewrite Ascii.eqb_refl. discriminate.
Qed.

Lemma matchFree_capture x d r :
  closesFirst x = true → d ≠ star → matchFree (d :: r) →
  matchFree (x ++ d :: r).
Proof.
  unfold closesFirst. intros Hx Hd Hr. induction x as [|c x IH]; [exact Hr|].
  cbn [delimFree app] in Hx. apply andb_true_iff in Hx as [Hs Hx].
  apply negb_true_iff in Hs.
  change ((c :: x) ++ d :: r) with (c :: x ++ d :: r).
  split; [|exact (IH Hx)].
  apply matchAt_not_delim, startsDelim_next_plain; assumption.
Qed.

Lemma matchFree_strong x out :
  closesFirst x = true → matchFree out →
  matchFree (strongOpen ++ x ++ strongClose ++ out).
Proof.
  intros Hx Ho.
  assert (Hc : matchFree (strongClose ++ out)).
  { unfold strongClose. cbn [list_ascii_of_string app].
    repeat (apply matchFree_cons_plain; [discriminate|]). exact Ho. }
  unfold strongOpen. cbn [list_ascii_of_string app].
  repeat (apply matchFree_cons_plain; [discriminate|]).
  unfold strongClose in *. cbn [list_ascii_of_string app] in *.
  apply matchFree_capture; [exact Hx | discriminate | exact Hc].
Qed.

Lemma lazyBody_cons_some c s :
  isLineTerminator c = false → is_Some (lazyBody s) → is_Some (lazyBody (c :: s)).
Proof.
  intros Hc [x Hx]. cbn [lazyBody].
  destruct (startsDelim (c :: s)); [eauto|]. rewrite Hc, Hx. simpl. eauto.
Qed.

(** What the normalizer produces holds no span any more. *)
Lemma normalizes_matchFree s out :
  normalizes s out →
  matchFree out
  ∧ (is_Some (lazyBody out) → is_Some (lazyBody s))
  ∧ (∀ out2, out = star :: out2 →
       ∃ s2, s = star :: s2
             ∧ (is_Some (lazyBody out2) → is_Some (lazyBody s2))).
Proof.
  induction 1 as [|s x rest out Hspan _ (Hm & _ & _)
                  | c s out Hno _ (Hm & Ha & Hh)].
  - split; [exact I|]. split; [intros [? H]; discriminate | intros ? H; discriminate].
  - destruct Hspan as [x rest Hx Hl]. split; [|split].
    + apply matchFree_strong; assumption.
    + intros _. exists []. reflexivity.
    + intros out2 H. discriminate.
  - assert (Hstart : startsDelim (c :: out) = true → startsDelim (c :: s) = true).
    { destruct out as [|b out2]; [discriminate|]. simpl.
      intros H. apply andb_true_iff in H as [Hc Hb].
      apply Ascii.eqb_eq in Hb. subst b.
      destruct (Hh out2 eq_refl) as (s2 & -> & _).
      simpl. rewrite Hc. reflexivity. }
    split; [|split].
    + split; [|exact Hm].
      unfold matchAt. destruct (startsDelim (c :: out)) eqn:Hs; [|reflexivity].
      destruct out as [|b out2]; [discriminate|].
      simpl in Hs. apply andb_true_iff in Hs as [Hc Hb].
      apply Ascii.eqb_eq in Hc, Hb. subst c b.
      destruct (Hh out2 eq_refl) as (s2 & -> & Ha2).
      change (drop 2 (star :: star :: out2)) with out2.
      destruct (lazyBody out2) as [y|] eqn:Hy; [|reflexivity].
      exfalso. destruct Ha2 as [x2 Hx2]; [eauto|].
      assert (Hmatch : matchAt (star :: star :: s2) = Some x2).
      { unfold matchAt. cbn [startsDelim]. rewrite Ascii.eqb_refl. exact Hx2. }
      apply matchAt_span in Hmatch as [rest Hspan]. exact (Hno _ _ Hspan).
    + intros Hsome. cbn [lazyBody] in Hsome |- *.
      destruct (startsDelim (c :: out)) eqn:Hs.
      * rewrite (Hstart eq_refl). eauto.
      * destruct (startsDelim (c :: s)); [eauto|].
        destruct (isLineTerminator c); [destruct Hsome; discriminate|].
        destruct (lazyBody out) as [y|]; [|destruct Hsome; discriminate].
        destruct Ha as [z ->]; [eauto|]. simpl. eauto.
    + intros out2 H. injection H as -> ->. exists s. split; [reflexivity | exact Ha].
Qed.

Lemma replaceBold_matchFree s : matchFree s → replaceBold 0 s = s.
Proof.
  induction s as [|c s IH]; [reflexivity|]. intros [Hm Hs].
  rewrite replaceBold_step, Hm, (IH Hs). reflexivity.
Qed.

Lemma replaceBold_idempotent s :
  replaceBold 0 (replaceBold 0 s) = replaceBold 0 s.
Proof.
  apply replaceBold_matchFree.
  apply (normalizes_matchFree s), replaceBold_normalizes.
Qed.

(** X22. Normalizing a normalized text changes nothing: what
    [processMarkdown] returns holds no span any more, so the function
    can be applied to its own result. *)
Theorem processMarkdown_idempotent text :
  processMarkdown (processMarkdown text) = processMarkdown text.
Proof.
  rewrite <- (string_of_list_ascii_of_string (processMarkdown (processMarkdown text))).
  rewrite !processMarkdown_chars, replaceBold_idempotent.
  rewrite <- processMarkdown_chars. apply string_of_list_ascii_of_string.
Qed.

(** ** Clicks *)

Section ClickExtras.

Variable fetch : nat → string → FetchOutcome.
Variable toUpperCase : string → string.

(** X24. A click on the link of the language that is current, with its
    bundle loaded, issues no request and leaves the session as it was:
    the page is only refreshed. *)
Theorem language_click_current newLang w :
  newLang = currentLang (session w) →
  bundleLoaded w = true →
  handle fetch toUpperCase (LanguageClick newLang) w = (render toUpperCase w).1
  ∧ session (handle fetch toUpperCase (LanguageClick newLang) w) = session w
  ∧ fetchLog (handle fetch toUpperCase (LanguageClick newLang) w) = fetchLog w.
Proof.
  intros Hn Hl. cbn [handle]. unfold onLanguageClick.
  rewrite loadLanguage_already by (apply alreadyLoaded_spec; auto).
  rewrite (updateContent_loaded fetch toUpperCase w Hl).
  destruct (render_frame toUpperCase w) as (Hs & Hlog & _). auto.
Qed.

(** X25. A click on the link of another language whose request succeeds
    with a body that is not empty switches the language: that language
    is current afterwards, its body is the bundle, the mode is kept and
    exactly one request was issued. *)
Theorem language_click_switches newLang w b :
  alreadyLoaded newLang w = false →
  fetch (List.length (fetchLog w)) (bundleUrl newLang) = Response true (Some b) →
  b ≠ ∅ →
  session (handle fetch toUpperCase (LanguageClick newLang) w)
  = {| currentLang := newLang; currentMode := currentMode (session w);
       currentTranslations := b |}
  ∧ fetchLog (handle fetch toUpperCase (LanguageClick newLang) w)
    = fetchLog w ++ [newLang].
Proof.
  intros Hg Hf Hb. cbn [handle]. unfold onLanguageClick.
  rewrite (loadLanguage_stores fetch newLang w b Hg Hf).
  match goal with |- context [updateContent _ _ ?x] => set (w1 := x) end.
  assert (Hl : bundleLoaded w1 = true).
  { rewrite bundleLoaded_keyCount.
    destruct (Nat.eqb_spec (keyCount w1) 0) as [E|E]; [|reflexivity].
    apply keyCount_zero in E. contradiction. }
  rewrite (updateContent_loaded fetch toUpperCase w1 Hl).
  destruct (render_frame toUpperCase w1) as (Hs & Hlog & _).
  rewrite Hs, Hlog. auto.
Qed.

(** X26. With a bundle loaded, a click on the mode toggle flips the mode
    and nothing else of the session, and issues no request. *)
Theorem mode_click_loaded w :
  bundleLoaded w = true →
  session (handle fetch toUpperCase ModeToggleClick w)
  = {| currentLang := currentLang (session w);
       currentMode := flipMode (currentMode (session w));
       currentTranslations := currentTranslations (session w) |}
  ∧ fetchLog (handle fetch toUpperCase ModeToggleClick w) = fetchLog w.
Proof.
  intros Hl. cbn [handle]. rewrite (onModeToggleClick_loaded fetch toUpperCase w Hl).
  match goal with |- context [render _ ?x] =>
    destruct (render_frame toUpperCase x) as (Hs & Hlog & _) end.
  rewrite Hs, Hlog. auto.
Qed.

End ClickExtras.

Lemma language_click_current_witness :
  let w := (onDOMContentLoaded netBoth id "es-ES" (initialWorld sampleDom)).1 in
  session (handle netDown id (LanguageClick "es") w) = session w
  ∧ fetchLog (handle netDown id (LanguageClick "es") w) = fetchLog w.
Proof.
  intros w.
  apply (language_click_current netDown id "es" w); vm_compute; reflexivity.
Defined.

Lemma language_click_switches_witness :
  let w := (onDOMContentLoaded netBoth id "es-ES" (initialWorld sampleDom)).1 in
  session (handle netBoth id (LanguageClick "en") w)
  = {| currentLang := "en"; currentMode := Summary;
       currentTranslations := sampleEn |}
  ∧ fetchLog (handle netBoth id (LanguageClick "en") w) = ["es"; "en"]%string.
Proof.
  intros w.
  apply (language_click_switches netBoth id "en" w sampleEn);
    [vm_compute; reflexivity | vm_compute; reflexivity |].
  intros H. apply (f_equal (λ m, m !! "summary"%string)) in H.
  vm_compute in H. discriminate.
Defined.

Lemma mode_click_loaded_witness :
  let w := (onDOMContentLoaded netBoth id "es-ES" (initialWorld sampleDom)).1 in
  session (handle netDown id ModeToggleClick w)
  = {| currentLang := "es"; currentMode := Full; currentTranslations := sampleEs |}
  ∧ fetchLog (handle netDown id ModeToggleClick w) = ["es"%string].
Proof.
  intros w.
  apply (mode_click_loaded netDown id w). vm_compute. reflexivity.
Defined.
